(** * Reduced Major Axis regression ([analysis/RMA.py])

    A shallow embedding of [RMARegression] and of the numpy routines it
    calls ([mean], [np.cov], [np.corrcoef], [np.sign], [np.sqrt]).

    The arithmetic of the source is written once, over an interface of
    scalar operations, and read at two carriers:
      - [float], IEEE 754 binary64 (what numpy computes with), where the
        code can be run on concrete samples, infinities and NaN included;
      - [R], exact real arithmetic, where the algebraic properties of the
        estimator are stated for every sample.
    The two quantile routines of scipy ([stats.t.isf], [stats.f.isf]) are
    outside the repository: they are parameters of the embedding. *)

From Stdlib Require Import List ZArith Bool String.
From Stdlib Require Import PrimFloat FloatOps FloatAxioms SpecFloat Uint63.
From Stdlib Require Import Reals Lra Lia Permutation.
Import ListNotations.

(** ** Scalars *)

Declare Scope num_scope.
Delimit Scope num_scope with num.

(** The operations the source applies to its numbers.  [of_int] is the
    conversion numpy performs when a Python [int] meets a float64. *)
Class Scalar (T : Type) : Type := {
  of_int : Z -> T;
  plus : T -> T -> T;
  minus : T -> T -> T;
  times : T -> T -> T;
  over : T -> T -> T;
  root : T -> T;
  lt : T -> T -> bool;
  same : T -> T -> bool
}.

Infix "+" := plus : num_scope.
Infix "-" := minus : num_scope.
Infix "*" := times : num_scope.
Infix "/" := over : num_scope.
Notation "# z" := (of_int z) (at level 5, format "# z") : num_scope.

(** *** binary64 *)

Definition float_of_Z (z : Z) : float :=
  match z with
  | Z0 => PrimFloat.zero
  | Zpos _ => PrimFloat.of_uint63 (Uint63.of_Z z)
  | Zneg p => PrimFloat.opp (PrimFloat.of_uint63 (Uint63.of_Z (Zpos p)))
  end.

#[export] Instance float_scalar : Scalar float := {|
  of_int := float_of_Z;
  plus := PrimFloat.add;
  minus := PrimFloat.sub;
  times := PrimFloat.mul;
  over := PrimFloat.div;
  root := PrimFloat.sqrt;
  lt := PrimFloat.ltb;
  same := PrimFloat.eqb
|}.

(** *** exact reals *)

Definition Rltb (x y : R) : bool := if Rlt_dec x y then true else false.
Definition Reqb (x y : R) : bool := if Req_dec_T x y then true else false.

#[export] Instance real_scalar : Scalar R := {|
  of_int := IZR;
  plus := Rplus;
  minus := Rminus;
  times := Rmult;
  over := Rdiv;
  root := sqrt;
  lt := Rltb;
  same := Reqb
|}.

(** ** The result record and the outcome of a call *)

(** [RMAResult = namedtuple('RMAResult', [...])]; the four interval fields
    are rows [lower, upper] of [bintr] and [bintjm]. *)
Record RMAResult (T : Type) : Type := mkRMAResult {
  slope : T;
  intercept : T;
  ci : T;
  slope_ci1 : T * T;
  intercept_ci1 : T * T;
  slope_ci2 : T * T;
  intercept_ci2 : T * T;
  RSquare : T
}.

Arguments mkRMAResult {T}.
Arguments slope {T}.
Arguments intercept {T}.
Arguments ci {T}.
Arguments slope_ci1 {T}.
Arguments intercept_ci1 {T}.
Arguments slope_ci2 {T}.
Arguments intercept_ci2 {T}.
Arguments RSquare {T}.

(** A call either returns a record or raises a Python exception, named by
    its class. *)
Inductive outcome (A : Type) : Type :=
| Returned (a : A)
| Raised (exn : string).

Arguments Returned {A} a.
Arguments Raised {A} exn.

Definition bind {A B : Type} (m : outcome A) (k : A -> outcome B) : outcome B :=
  match m with
  | Returned a => k a
  | Raised e => Raised e
  end.

Notation "'let*' x ':=' m 'in' k" := (bind m (fun x => k))
  (at level 10, x name, m at level 100, k at level 200).

(** ** numpy *)

Section Numpy.
Context {T : Type} `{Scalar T}.
Open Scope num_scope.

Definition len (l : list T) : Z := Z.of_nat (List.length l).

(** [add.reduce], accumulated from the left.  numpy adds from the left
    below eight terms, and in blocks and pairwise from there on; over the
    reals the order does not matter, and the binary64 samples run below
    have three terms or fewer, or are small integers, whose sums are exact
    in any order. *)
Definition np_sum (l : list T) : T := fold_left plus l #0.

(** [ndarray.mean]: the sum divided by the number of items. *)
Definition mean (l : list T) : T := np_sum l / #(len l).

Definition dot (a b : list T) : T :=
  np_sum (map (fun p => fst p * snd p) (combine a b)).

Definition is_nan (x : T) : bool := negb (same x x).

(** [np.maximum], [np.minimum]: a NaN first argument is kept. *)
Definition np_max (a b : T) : T := if is_nan a || lt b a then a else b.
Definition np_min (a b : T) : T := if is_nan a || lt a b then a else b.

Definition np_clip (x lo hi : T) : T := np_min (np_max x lo) hi.

(** [np.sign]: 1, -1, 0, and NaN for NaN. *)
Definition np_sign (x : T) : T :=
  if lt #0 x then #1
  else if lt x #0 then #(-1)
  else if same x #0 then #0
  else x.

(** The 2x2 matrix [np.cov(X, Y)] returns, by its three distinct
    entries. *)
Record cov_matrix : Type := mkCov { c00 : T; c01 : T; c11 : T }.

(** [np.cov(X, Y)] with the default [ddof = 1]: the two samples are
    stacked as rows (which fails unless they are equally long), each row
    is centred on its average, and the matrix of dot products is
    multiplied by [1 / fact], [fact] being [n - 1], or [0.0] when that is
    not positive. *)
Definition np_cov (X Y : list T) : outcome cov_matrix :=
  if negb (len X =? len Y)%Z then Raised "ValueError"
  else
    let avgX := mean X in
    let avgY := mean Y in
    let fact := (len X - 1)%Z in
    let fact := if (fact <=? 0)%Z then 0%Z else fact in
    let Xc := map (fun x => x - avgX) X in
    let Yc := map (fun y => y - avgY) Y in
    let w := #1 / #fact in
    Returned (mkCov (dot Xc Xc * w) (dot Xc Yc * w) (dot Yc Yc * w)).

(** [np.corrcoef(X, Y)[0, 1]]: the covariance divided by the standard
    deviation of its row, then of its column, and clipped to [-1, 1]. *)
Definition corr_of_cov (c : cov_matrix) : T :=
  let stddev0 := root (c00 c) in
  let stddev1 := root (c11 c) in
  np_clip (c01 c / stddev0 / stddev1) #(-1) #1.

Definition np_corrcoef01 (X Y : list T) : outcome T :=
  let* c := np_cov X Y in
  Returned (corr_of_cov c).

End Numpy.

(** ** [RMARegression] *)

Section RMA.
Context {T : Type} `{Scalar T}.
Open Scope num_scope.

(** [stats.t.isf(q, df)] and [stats.f.isf(q, dfn, dfd)] of scipy. *)
Variable t_isf : T -> Z -> T.
Variable f_isf : T -> Z -> Z -> T.

(** The function, line by line; [SCP ** 2] and [r ** 2] are written as
    products. *)
Definition RMARegression (X Y : list T) (alpha : T) : outcome (RMAResult T) :=
  let n := len Y in
  let* S := np_cov X Y in
  let SCX := c00 S * #(n - 1) in
  let SCY := c11 S * #(n - 1) in
  let SCP := c01 S * #(n - 1) in
  let* r := np_corrcoef01 X Y in
  let v := np_sign r * root (SCY / SCX) in
  let u := mean Y - mean X * v in
  let SCv := SCY - (SCP * SCP) / SCX in
  let N := SCv / #(n - 2) in
  let sv := root (N / SCX) in
  let t := t_isf (alpha / #2) (n - 2) in
  let vi := v - t * sv in
  let vs := v + t * sv in
  let ui := mean Y - mean X * vs in
  let us := mean Y - mean X * vi in
  let* r := np_corrcoef01 X Y in
  let F := f_isf alpha 1 (n - 2) in
  let B := F * (#1 - r * r) / #(n - 2) in
  let a := root (B + #1) in
  let c := root B in
  let qi := v * (a - c) in
  let qs := v * (a + c) in
  let pi := mean Y - mean X * qs in
  let ps := mean Y - mean X * qi in
  Returned {| slope := v; intercept := u; ci := #1 - alpha;
              intercept_ci1 := (ui, us); slope_ci1 := (vi, vs);
              intercept_ci2 := (pi, ps); slope_ci2 := (qi, qs);
              RSquare := r * r |}.

(** *** The body, quantity by quantity

    The same computation with its intermediate values named, as functions
    of the covariance matrix [S], the sample size [n] and the two means:
    what the function returns once [np.cov] has returned. *)

Definition SCX (S : cov_matrix) (n : Z) : T := c00 S * #(n - 1).
Definition SCY (S : cov_matrix) (n : Z) : T := c11 S * #(n - 1).
Definition SCP (S : cov_matrix) (n : Z) : T := c01 S * #(n - 1).

Definition slope_of (S : cov_matrix) (n : Z) : T :=
  np_sign (corr_of_cov S) * root (SCY S n / SCX S n).

Definition sv_of (S : cov_matrix) (n : Z) : T :=
  root ((SCY S n - (SCP S n * SCP S n) / SCX S n) / #(n - 2) / SCX S n).

Definition B_of (S : cov_matrix) (n : Z) (alpha : T) : T :=
  f_isf alpha 1 (n - 2) * (#1 - corr_of_cov S * corr_of_cov S) / #(n - 2).

Definition estimate (S : cov_matrix) (n : Z) (mx my alpha : T) : RMAResult T :=
  let v := slope_of S n in
  let t := t_isf (alpha / #2) (n - 2) in
  let sv := sv_of S n in
  let a := root (B_of S n alpha + #1) in
  let c := root (B_of S n alpha) in
  {| slope := v; intercept := my - mx * v; ci := #1 - alpha;
     intercept_ci1 := (my - mx * (v + t * sv), my - mx * (v - t * sv));
     slope_ci1 := (v - t * sv, v + t * sv);
     intercept_ci2 := (my - mx * (v * (a + c)), my - mx * (v * (a - c)));
     slope_ci2 := (v * (a - c), v * (a + c));
     RSquare := corr_of_cov S * corr_of_cov S |}.

Lemma RMARegression_estimate (X Y : list T) (alpha : T) (S : cov_matrix) :
  np_cov X Y = Returned S ->
  RMARegression X Y alpha = Returned (estimate S (len Y) (mean X) (mean Y) alpha).
Proof.
  intros HS. unfold RMARegression, np_corrcoef01. rewrite HS. reflexivity.
Qed.

End RMA.

(** ** What a call does, for any carrier *)

Section Calls.
Context {T : Type} `{Scalar T}.
Variable t_isf : T -> Z -> T.
Variable f_isf : T -> Z -> Z -> T.

Lemma np_cov_mismatch (X Y : list T) :
  len X <> len Y -> np_cov X Y = Raised "ValueError".
Proof.
  intros Hne. unfold np_cov.
  destruct (Z.eqb_spec (len X) (len Y)) as [He | _]; [contradiction | reflexivity].
Qed.

Lemma np_cov_aligned (X Y : list T) :
  len X = len Y -> exists S, np_cov X Y = Returned S.
Proof.
  intros He. unfold np_cov. rewrite He, Z.eqb_refl. cbn. eexists. reflexivity.
Qed.

(** Unequal lengths are the only way a call fails, and the failure is
    numpy's. *)
Lemma RMARegression_mismatch (X Y : list T) (alpha : T) :
  len X <> len Y -> RMARegression t_isf f_isf X Y alpha = Raised "ValueError".
Proof.
  intros Hne. unfold RMARegression. rewrite (np_cov_mismatch X Y Hne). reflexivity.
Qed.

Lemma RMARegression_aligned (X Y : list T) (alpha : T) :
  len X = len Y -> exists res, RMARegression t_isf f_isf X Y alpha = Returned res.
Proof.
  intros He. destruct (np_cov_aligned X Y He) as [S HS].
  rewrite (RMARegression_estimate t_isf f_isf X Y alpha S HS). eexists. reflexivity.
Qed.

End Calls.

(** ** Exact arithmetic: the numpy routines over [R] *)

Section RealNumpy.
Open Scope R_scope.

Local Abbreviation sumR := (np_sum (T := R)).
Local Abbreviation dotR := (dot (T := R)).
Local Abbreviation meanR := (mean (T := R)).

Lemma fold_left_Rplus_acc (l : list R) (a : R) :
  fold_left Rplus l a = a + fold_left Rplus l 0.
Proof.
  revert a. induction l as [| x l IH]; intros a; cbn.
  - lra.
  - rewrite IH, (IH (0 + x)). lra.
Qed.

Lemma sumR_nil : sumR [] = 0.
Proof. reflexivity. Qed.

Lemma sumR_cons (x : R) (l : list R) : sumR (x :: l) = x + sumR l.
Proof.
  unfold np_sum. cbn. rewrite fold_left_Rplus_acc. lra.
Qed.

(** A sum does not depend on the order of its terms. *)
Lemma sumR_perm (l1 l2 : list R) : Permutation l1 l2 -> sumR l1 = sumR l2.
Proof.
  induction 1 as [| x l l' _ IH | x y l | l l' l'' _ IH1 _ IH2].
  - reflexivity.
  - rewrite !sumR_cons, IH. reflexivity.
  - rewrite !sumR_cons. lra.
  - congruence.
Qed.

Lemma sumR_scale (k : R) (l : list R) :
  sumR (map (fun x => k * x) l) = k * sumR l.
Proof.
  induction l as [| x l IH]; cbn [map].
  - rewrite sumR_nil. lra.
  - rewrite !sumR_cons, IH. lra.
Qed.

Lemma sumR_squares_nonneg (l : list R) : 0 <= sumR (map (fun x => x * x) l).
Proof.
  induction l as [| x l IH]; cbn [map].
  - rewrite sumR_nil. lra.
  - rewrite sumR_cons. nra.
Qed.

(** No real number is a NaN. *)
Lemma is_nan_real (x : R) : is_nan x = false.
Proof.
  unfold is_nan. cbn. unfold Reqb.
  destruct (Req_dec_T x x); [reflexivity | contradiction].
Qed.

Lemma Rltb_true (x y : R) : Rltb x y = true <-> x < y.
Proof. unfold Rltb. destruct (Rlt_dec x y); split; intros; (easy || lra). Qed.

Lemma Rltb_false (x y : R) : Rltb x y = false <-> y <= x.
Proof. unfold Rltb. destruct (Rlt_dec x y); split; intros; (easy || lra). Qed.

Lemma np_max_real (a b : R) : np_max a b = Rmax a b.
Proof.
  unfold np_max. rewrite is_nan_real. cbn.
  destruct (Rltb b a) eqn:E.
  - apply Rltb_true in E. rewrite Rmax_left; lra.
  - apply Rltb_false in E. rewrite Rmax_right; lra.
Qed.

Lemma np_min_real (a b : R) : np_min a b = Rmin a b.
Proof.
  unfold np_min. rewrite is_nan_real. cbn.
  destruct (Rltb a b) eqn:E.
  - apply Rltb_true in E. rewrite Rmin_left; lra.
  - apply Rltb_false in E. rewrite Rmin_right; lra.
Qed.

Lemma np_clip_real (x : R) : np_clip x (-1) 1 = Rmin (Rmax x (-1)) 1.
Proof. unfold np_clip. now rewrite np_max_real, np_min_real. Qed.

Lemma np_clip_range (x : R) : -1 <= np_clip x (-1) 1 <= 1.
Proof.
  rewrite np_clip_real. unfold Rmin, Rmax.
  destruct (Rle_dec x (-1)); destruct (Rle_dec _ 1); lra.
Qed.

Lemma np_clip_inside (x : R) : -1 <= x <= 1 -> np_clip x (-1) 1 = x.
Proof.
  intros Hx. rewrite np_clip_real. unfold Rmin, Rmax.
  destruct (Rle_dec x (-1)); destruct (Rle_dec _ 1); lra.
Qed.

(** [np.sign] over the reals, by cases. *)
Lemma np_sign_pos (x : R) : 0 < x -> np_sign x = 1.
Proof.
  intros Hx. unfold np_sign. cbn.
  destruct (Rltb 0 x) eqn:E; [reflexivity |].
  apply Rltb_false in E. lra.
Qed.

Lemma np_sign_neg (x : R) : x < 0 -> np_sign x = -1.
Proof.
  intros Hx. unfold np_sign. cbn.
  destruct (Rltb 0 x) eqn:E; [apply Rltb_true in E; lra |].
  destruct (Rltb x 0) eqn:E'; [reflexivity |].
  apply Rltb_false in E'. lra.
Qed.

Lemma np_sign_zero : np_sign 0 = 0.
Proof.
  unfold np_sign. cbn.
  destruct (Rltb 0 0) eqn:E; [apply Rltb_true in E; lra |].
  unfold Reqb. destruct (Req_dec_T 0 0); [reflexivity | contradiction].
Qed.

(** Clipping to [-1, 1] keeps the sign. *)
Lemma np_sign_clip (x : R) : np_sign (np_clip x (-1) 1) = np_sign x.
Proof.
  rewrite np_clip_real. unfold Rmin, Rmax.
  destruct (Rtotal_order x 0) as [Hx | [Hx | Hx]].
  - rewrite (np_sign_neg x Hx).
    destruct (Rle_dec x (-1)); destruct (Rle_dec _ 1); apply np_sign_neg; lra.
  - subst x. destruct (Rle_dec 0 (-1)); destruct (Rle_dec _ 1); lra || reflexivity.
  - rewrite (np_sign_pos x Hx).
    destruct (Rle_dec x (-1)); destruct (Rle_dec _ 1); apply np_sign_pos; lra.
Qed.

End RealNumpy.

(** ** Exact arithmetic: the estimator over [R] *)

(** *** The statistics of the specification

    Sample variance and covariance (denominator [n - 1]) and Pearson's
    correlation, written from their textbook definitions. *)

Definition sample_var (X : list R) : R :=
  (np_sum (map (fun x => (x - mean X) * (x - mean X)) X) / IZR (len X - 1))%R.

Definition sample_cov (X Y : list R) : R :=
  (np_sum (map (fun p => (fst p - mean X) * (snd p - mean Y)) (combine X Y))
   / IZR (len X - 1))%R.

Definition pearson (X Y : list R) : R :=
  (sample_cov X Y / (sqrt (sample_var X) * sqrt (sample_var Y)))%R.

(** The inputs the specification calls valid. *)
Definition valid_input (X Y : list R) (alpha : R) : Prop :=
  len X = len Y /\ (3 <= len X)%Z /\
  (0 < sample_var X)%R /\ (0 < sample_var Y)%R /\ (0 < alpha < 1)%R.

Section RealCov.
Open Scope R_scope.

Lemma dot_map_combine (f g : R -> R) (X Y : list R) :
  dot (map f X) (map g Y)
  = np_sum (map (fun p => f (fst p) * g (snd p)) (combine X Y)).
Proof.
  unfold dot. f_equal. revert Y.
  induction X as [| x X IH]; intros [| y Y]; cbn [map combine]; try reflexivity.
  f_equal. apply IH.
Qed.

Lemma map_combine_diag (h : R * R -> R) (X : list R) :
  map h (combine X X) = map (fun x => h (x, x)) X.
Proof.
  induction X as [| x X IH]; cbn [map combine]; [reflexivity | now rewrite IH].
Qed.

(** Over the reals [np.cov] is the matrix of sample variances and
    covariance. *)
Lemma np_cov_real (X Y : list R) :
  len X = len Y -> (2 <= len X)%Z ->
  np_cov X Y
  = Returned (mkCov (sample_var X) (sample_cov X Y) (sample_var Y)).
Proof.
  intros Hlen Hn. unfold np_cov. rewrite Hlen, Z.eqb_refl. cbn [negb].
  destruct (Z.leb_spec (len Y - 1) 0) as [Hle | _]; [lia |].
  cbv zeta. rewrite !dot_map_combine, !map_combine_diag.
  unfold sample_var, sample_cov. rewrite Hlen. cbn [fst snd].
  f_equal. f_equal; cbn; unfold Rdiv; ring.
Qed.

End RealCov.

(** *** The Cauchy-Schwarz inequality, for sums over a list of pairs *)

Section CauchySchwarz.
Open Scope R_scope.

Definition sum_prod (f g : R * R -> R) (L : list (R * R)) : R :=
  np_sum (map (fun p => f p * g p) L).

Lemma quadratic_nonneg (L : list (R * R)) (t : R) :
  0 <= sum_prod fst fst L * (t * t) + 2 * sum_prod fst snd L * t + sum_prod snd snd L.
Proof.
  unfold sum_prod.
  induction L as [| [a b] l IH]; cbn [map fst snd].
  - rewrite !sumR_nil. lra.
  - rewrite !sumR_cons. pose proof (Rle_0_sqr (a * t + b)) as Hsq.
    unfold Rsqr in Hsq. nra.
Qed.

Lemma cauchy_schwarz (L : list (R * R)) :
  sum_prod fst snd L * sum_prod fst snd L <= sum_prod fst fst L * sum_prod snd snd L.
Proof.
  set (A := sum_prod fst fst L). set (B := sum_prod fst snd L).
  set (C := sum_prod snd snd L).
  pose proof (quadratic_nonneg L) as Hq. fold A B C in Hq.
  assert (HA : 0 <= A).
  { unfold A, sum_prod. rewrite <- (map_map fst (fun a => a * a)).
    apply sumR_squares_nonneg. }
  destruct (Req_dec_T A 0) as [HA0 | HA0].
  - destruct (Req_dec_T B 0) as [HB0 | HB0]; [rewrite HB0, HA0; lra |].
    exfalso. specialize (Hq (- (C + 1) / (2 * B))).
    rewrite HA0 in Hq.
    replace (2 * B * (- (C + 1) / (2 * B))) with (- (C + 1)) in Hq by (field; exact HB0).
    lra.
  - assert (HApos : 0 < A) by lra.
    specialize (Hq (- B / A)).
    replace (A * (- B / A * (- B / A)) + 2 * B * (- B / A) + C)
      with (C - B * B / A) in Hq by (field; exact HA0).
    assert (HBA : B * B / A <= C) by lra.
    apply (Rmult_le_compat_l A) in HBA; [| lra].
    replace (A * (B * B / A)) with (B * B) in HBA by (field; exact HA0).
    exact HBA.
Qed.

End CauchySchwarz.

(** *** Pearson's correlation lies in [-1, 1] *)

Section PearsonRange.
Open Scope R_scope.

Lemma combine_fst (X Y : list R) :
  List.length X = List.length Y -> map fst (combine X Y) = X.
Proof.
  revert Y. induction X as [| x X IH]; intros [| y Y] Hl; cbn in *;
    try reflexivity; try discriminate.
  f_equal. apply IH. now injection Hl.
Qed.

Lemma combine_snd (X Y : list R) :
  List.length X = List.length Y -> map snd (combine X Y) = Y.
Proof.
  revert Y. induction X as [| x X IH]; intros [| y Y] Hl; cbn in *;
    try reflexivity; try discriminate.
  f_equal. apply IH. now injection Hl.
Qed.

Lemma len_length (X Y : list R) : len X = len Y -> List.length X = List.length Y.
Proof. unfold len. lia. Qed.

(** The paired deviations from the two means. *)
Definition centred (X Y : list R) : list (R * R) :=
  map (fun p => (fst p - mean X, snd p - mean Y)) (combine X Y).

Lemma sample_cov_centred (X Y : list R) :
  sample_cov X Y = sum_prod fst snd (centred X Y) / IZR (len X - 1).
Proof.
  unfold sample_cov, sum_prod, centred. now rewrite map_map.
Qed.

Lemma sample_var_centred_l (X Y : list R) :
  len X = len Y ->
  sample_var X = sum_prod fst fst (centred X Y) / IZR (len X - 1).
Proof.
  intros Hl. unfold sample_var, sum_prod, centred. rewrite map_map. cbn [fst].
  rewrite <- (map_map fst (fun x => (x - mean X) * (x - mean X))).
  now rewrite (combine_fst X Y (len_length X Y Hl)).
Qed.

Lemma sample_var_centred_r (X Y : list R) :
  len X = len Y ->
  sample_var Y = sum_prod snd snd (centred X Y) / IZR (len X - 1).
Proof.
  intros Hl. unfold sample_var, sum_prod, centred. rewrite map_map. cbn [snd].
  rewrite <- (map_map snd (fun y => (y - mean Y) * (y - mean Y))).
  now rewrite (combine_snd X Y (len_length X Y Hl)), Hl.
Qed.

Lemma sample_cov_sq_le (X Y : list R) :
  len X = len Y ->
  sample_cov X Y * sample_cov X Y <= sample_var X * sample_var Y.
Proof.
  intros Hl.
  rewrite sample_cov_centred, (sample_var_centred_l X Y Hl),
    (sample_var_centred_r X Y Hl).
  pose proof (cauchy_schwarz (centred X Y)) as Hcs.
  set (A := sum_prod fst fst _) in *. set (B := sum_prod fst snd _) in *.
  set (C := sum_prod snd snd _) in *.
  unfold Rdiv. set (i := / IZR (len X - 1)).
  replace (B * i * (B * i)) with (B * B * (i * i)) by ring.
  replace (A * i * (C * i)) with (A * C * (i * i)) by ring.
  apply Rmult_le_compat_r; [nra | exact Hcs].
Qed.

Lemma pearson_range (X Y : list R) :
  len X = len Y -> 0 < sample_var X -> 0 < sample_var Y ->
  -1 <= pearson X Y <= 1.
Proof.
  intros Hl Hx Hy. pose proof (sample_cov_sq_le X Y Hl) as Hc.
  unfold pearson.
  pose proof (sqrt_lt_R0 _ Hx) as Hsx. pose proof (sqrt_lt_R0 _ Hy) as Hsy.
  pose proof (sqrt_sqrt (sample_var X) (Rlt_le _ _ Hx)) as Ex.
  pose proof (sqrt_sqrt (sample_var Y) (Rlt_le _ _ Hy)) as Ey.
  set (sx := sqrt (sample_var X)) in *. set (sy := sqrt (sample_var Y)) in *.
  set (c := sample_cov X Y) in *.
  assert (Hd : 0 < sx * sy) by (apply Rmult_lt_0_compat; assumption).
  assert (Hcd : c * c <= (sx * sy) * (sx * sy)).
  { replace (sx * sy * (sx * sy)) with ((sx * sx) * (sy * sy)) by ring.
    rewrite Ex, Ey. exact Hc. }
  assert (Hb : - (sx * sy) <= c <= sx * sy) by nra.
  split.
  - apply (Rmult_le_reg_r (sx * sy)); [exact Hd |].
    unfold Rdiv. rewrite Rmult_assoc, Rinv_l; lra.
  - apply (Rmult_le_reg_r (sx * sy)); [exact Hd |].
    unfold Rdiv. rewrite Rmult_assoc, Rinv_l; lra.
Qed.

End PearsonRange.

Section RealRMA.
Open Scope R_scope.

Variable t_isf : R -> Z -> R.
Variable f_isf : R -> Z -> Z -> R.

(** The covariance matrix of a sample, as [np_cov_real] gives it. *)
Definition cov_of (X Y : list R) : cov_matrix :=
  mkCov (sample_var X) (sample_cov X Y) (sample_var Y).

Lemma RMARegression_valid (X Y : list R) (alpha : R) :
  valid_input X Y alpha ->
  RMARegression t_isf f_isf X Y alpha
  = Returned (estimate t_isf f_isf (cov_of X Y) (len Y) (mean X) (mean Y) alpha).
Proof.
  intros (Hlen & Hn & _). apply RMARegression_estimate.
  apply np_cov_real; [exact Hlen | lia].
Qed.

Lemma corr_of_cov_range (S : cov_matrix) : -1 <= corr_of_cov S <= 1.
Proof. unfold corr_of_cov. cbv zeta. apply np_clip_range. Qed.

Lemma corr_of_cov_sign (X Y : list R) :
  np_sign (corr_of_cov (cov_of X Y)) = np_sign (pearson X Y).
Proof.
  unfold corr_of_cov, cov_of, pearson. cbn.
  rewrite np_sign_clip. f_equal.
  unfold Rdiv. rewrite Rinv_mult. ring.
Qed.

Lemma SC_ratio (X Y : list R) (n : Z) :
  SCY (cov_of X Y) n / SCX (cov_of X Y) n
  = (IZR (n - 1) * sample_var Y) / (IZR (n - 1) * sample_var X).
Proof.
  rewrite (Rmult_comm (IZR (n - 1)) (sample_var Y)).
  rewrite (Rmult_comm (IZR (n - 1)) (sample_var X)). reflexivity.
Qed.

(** Reading the record returned on a valid input. *)
Ltac real_ops :=
  cbn [of_int plus minus times over root lt same real_scalar] in *.

Ltac on_valid H :=
  rewrite (RMARegression_valid _ _ _ H); eexists; split; [reflexivity |];
  unfold estimate; cbn [slope intercept ci slope_ci1 intercept_ci1 slope_ci2
                        intercept_ci2 RSquare fst snd]; real_ops.

Lemma corr_of_cov_pearson (X Y : list R) (alpha : R) :
  valid_input X Y alpha -> corr_of_cov (cov_of X Y) = pearson X Y.
Proof.
  intros (Hlen & Hn & Hx & Hy & _).
  pose proof (pearson_range X Y Hlen Hx Hy) as Hr.
  unfold corr_of_cov, cov_of. cbn.
  replace (sample_cov X Y / sqrt (sample_var X) / sqrt (sample_var Y))
    with (pearson X Y)
    by (unfold pearson, Rdiv; rewrite Rinv_mult; ring).
  apply np_clip_inside. exact Hr.
Qed.

(** The point estimates over [R], in the terms of the code: the slope is
    [np.sign(r) * sqrt(SCY / SCX)] and the intercept
    [mean(Y) - mean(X) * slope], with [SCX = (n-1) Var(X)],
    [SCY = (n-1) Var(Y)] and [r] Pearson's correlation of [X] and [Y]. *)
Theorem point_estimates (X Y : list R) (alpha : R) :
  valid_input X Y alpha ->
  exists res,
    RMARegression t_isf f_isf X Y alpha = Returned res /\
    slope res
    = np_sign (pearson X Y)
      * sqrt ((IZR (len X - 1) * sample_var Y) / (IZR (len X - 1) * sample_var X)) /\
    intercept res = mean Y - mean X * slope res.
Proof.
  intros Hv. pose proof Hv as (Hlen & _).
  on_valid Hv. unfold slope_of. real_ops.
  rewrite corr_of_cov_sign, SC_ratio, Hlen. split; reflexivity.
Qed.

(** [RSquare] over [R], in the terms of the code: the square of Pearson's
    correlation of [X] and [Y], between 0 and 1. *)
Theorem RSquare_bounds (X Y : list R) (alpha : R) :
  valid_input X Y alpha ->
  exists res,
    RMARegression t_isf f_isf X Y alpha = Returned res /\
    RSquare res = pearson X Y * pearson X Y /\
    0 <= RSquare res <= 1.
Proof.
  intros Hv. pose proof Hv as (Hlen & Hn & Hx & Hy & _).
  on_valid Hv. rewrite (corr_of_cov_pearson X Y alpha Hv).
  pose proof (pearson_range X Y Hlen Hx Hy) as Hr.
  split; [reflexivity | nra].
Qed.

Lemma B_of_nonneg (S : cov_matrix) (n : Z) (alpha : R) :
  (3 <= n)%Z -> 0 <= f_isf alpha 1 (n - 2) -> 0 <= B_of f_isf S n alpha.
Proof.
  intros Hn HF. unfold B_of. real_ops.
  pose proof (corr_of_cov_range S) as Hr.
  assert (Hd : 0 < IZR (n - 2)) by (apply IZR_lt; lia).
  apply Rmult_le_pos; [| left; apply Rinv_0_lt_compat; exact Hd].
  apply Rmult_le_pos; [exact HF | nra].
Qed.

(** C9: on every valid input the two Jolicoeur-Mosimann/McArdle slope
    bounds multiply to the square of the slope, the F quantile being, as a
    quantile of a distribution on the positive half-line, not negative. *)
Theorem slope_ci2_product (X Y : list R) (alpha : R) :
  valid_input X Y alpha ->
  0 <= f_isf alpha 1 (len Y - 2) ->
  exists res,
    RMARegression t_isf f_isf X Y alpha = Returned res /\
    fst (slope_ci2 res) * snd (slope_ci2 res) = slope res * slope res.
Proof.
  intros Hv HF. pose proof Hv as (Hlen & Hn & _).
  on_valid Hv.
  assert (HB : 0 <= B_of f_isf (cov_of X Y) (len Y) alpha)
    by (apply B_of_nonneg; [lia | exact HF]).
  set (B := B_of _ _ _ _) in *. set (v := slope_of _ _).
  assert (Ea : sqrt (B + 1) * sqrt (B + 1) = B + 1) by (apply sqrt_sqrt; lra).
  assert (Ec : sqrt B * sqrt B = B) by (apply sqrt_sqrt; exact HB).
  replace (v * (sqrt (B + 1) - sqrt B) * (v * (sqrt (B + 1) + sqrt B)))
    with (v * v * (sqrt (B + 1) * sqrt (B + 1) - sqrt B * sqrt B)) by ring.
  rewrite Ea, Ec. ring.
Qed.

(** *** Rescaling the two samples *)

Lemma sumR_map_ext (f g : R -> R) (l : list R) :
  (forall x, f x = g x) -> np_sum (map f l) = np_sum (map g l).
Proof. intros E. now rewrite (map_ext f g E). Qed.

Lemma len_map (f : R -> R) (l : list R) : len (map f l) = len l.
Proof. unfold len. now rewrite length_map. Qed.

Lemma mean_scale (k : R) (X : list R) :
  mean (map (fun x => k * x) X) = k * mean X.
Proof.
  unfold mean. rewrite len_map, sumR_scale. real_ops. unfold Rdiv. ring.
Qed.

Lemma sample_var_scale (k : R) (X : list R) :
  sample_var (map (fun x => k * x) X) = k * k * sample_var X.
Proof.
  unfold sample_var. rewrite len_map, mean_scale, map_map.
  rewrite (sumR_map_ext _ (fun x => (k * k) * ((x - mean X) * (x - mean X))))
    by (intros x; ring).
  rewrite <- (map_map (fun x => (x - mean X) * (x - mean X)) (fun y => k * k * y)).
  rewrite sumR_scale. unfold Rdiv. ring.
Qed.








(** *** Reordering the observations *)

Lemma mean_perm (X X' : list R) : Permutation X X' -> mean X' = mean X.
Proof.
  intros HP. unfold mean, len.
  now rewrite (sumR_perm _ _ HP), (Permutation_length HP).
Qed.

Lemma np_cov_perm (X Y X' Y' : list R) :
  len X = len Y -> len X' = len Y' ->
  Permutation (combine X Y) (combine X' Y') ->
  np_cov X' Y' = np_cov X Y /\ mean X' = mean X /\ mean Y' = mean Y /\
  len Y' = len Y.
Proof.
  intros Hl Hl' HP.
  assert (HX : Permutation X X').
  { rewrite <- (combine_fst X Y (len_length _ _ Hl)).
    rewrite <- (combine_fst X' Y' (len_length _ _ Hl')).
    apply Permutation_map. exact HP. }
  assert (HY : Permutation Y Y').
  { rewrite <- (combine_snd X Y (len_length _ _ Hl)).
    rewrite <- (combine_snd X' Y' (len_length _ _ Hl')).
    apply Permutation_map. exact HP. }
  pose proof (mean_perm _ _ HX) as EX. pose proof (mean_perm _ _ HY) as EY.
  assert (ElX : len X' = len X) by (unfold len; now rewrite (Permutation_length HX)).
  assert (ElY : len Y' = len Y) by (unfold len; now rewrite (Permutation_length HY)).
  repeat split; try assumption.
  unfold np_cov. rewrite ElX, ElY, EX, EY.
  destruct (negb (len X =? len Y)%Z); [reflexivity |]. cbv zeta.
  rewrite !dot_map_combine, !map_combine_diag.
  f_equal. f_equal; f_equal; apply sumR_perm; apply Permutation_map;
    (exact HP || now symmetry).
Qed.

(** C10, in exact arithmetic: reordering the paired observations, [X] and
    [Y] by the same permutation, does not change the outcome of the call:
    on a valid input the same record is returned, equal in every field. *)
Theorem permutation_invariance (X Y X' Y' : list R) (alpha : R) :
  valid_input X Y alpha ->
  len X' = len Y' ->
  Permutation (combine X Y) (combine X' Y') ->
  exists res,
    RMARegression t_isf f_isf X Y alpha = Returned res /\
    RMARegression t_isf f_isf X' Y' alpha = Returned res.
Proof.
  intros Hv Hl' HP. pose proof Hv as (Hl & Hn & _).
  destruct (np_cov_perm X Y X' Y' Hl Hl' HP) as (Ec & EX & EY & El).
  rewrite (RMARegression_valid _ _ _ Hv). eexists. split; [reflexivity |].
  rewrite (RMARegression_estimate t_isf f_isf X' Y' alpha (cov_of X Y)).
  - now rewrite EX, EY, El.
  - rewrite Ec. apply np_cov_real; [exact Hl | lia].
Qed.

(** *** The two intervals

    What holds on every valid input: the Ricker slope interval is ordered
    and contains the slope (the t quantile not being negative). *)

Lemma sv_of_nonneg (S : cov_matrix) (n : Z) : 0 <= sv_of S n.
Proof. unfold sv_of. real_ops. apply sqrt_pos. Qed.

Lemma slope_ci1_brackets (X Y : list R) (alpha : R) :
  valid_input X Y alpha ->
  0 <= t_isf (alpha / 2) (len Y - 2) ->
  exists res,
    RMARegression t_isf f_isf X Y alpha = Returned res /\
    fst (slope_ci1 res) <= slope res <= snd (slope_ci1 res).
Proof.
  intros Hv Ht. on_valid Hv.
  pose proof (sv_of_nonneg (cov_of X Y) (len Y)) as Hsv.
  set (sv := sv_of _ _) in *. set (t := t_isf _ _) in *. nra.
Qed.

(** With a positive slope the Jolicoeur-Mosimann/McArdle slope interval is
    ordered and contains the slope as well. *)
Lemma slope_ci2_brackets_pos (X Y : list R) (alpha : R) :
  valid_input X Y alpha ->
  0 <= f_isf alpha 1 (len Y - 2) ->
  0 <= slope_of (cov_of X Y) (len Y) ->
  exists res,
    RMARegression t_isf f_isf X Y alpha = Returned res /\
    fst (slope_ci2 res) <= slope res <= snd (slope_ci2 res).
Proof.
  intros Hv HF Hs. pose proof Hv as (Hlen & Hn & _). on_valid Hv.
  assert (HB : 0 <= B_of f_isf (cov_of X Y) (len Y) alpha)
    by (apply B_of_nonneg; [lia | exact HF]).
  set (B := B_of _ _ _ _) in *. set (v := slope_of _ _) in *.
  pose proof (sqrt_pos B) as Hc.
  assert (Ha : 1 <= sqrt (B + 1)).
  { rewrite <- sqrt_1 at 1. apply sqrt_le_1_alt. lra. }
  assert (Hac : sqrt (B + 1) <= 1 + sqrt B).
  { pose proof (sqrt_sqrt B HB) as Ec.
    assert (Ea : sqrt (B + 1) * sqrt (B + 1) = B + 1) by (apply sqrt_sqrt; lra).
    apply Rnot_lt_le. intros Hgt. nra. }
  split; nra.
Qed.

(** Two small samples: one with a negative correlation, one with a
    negative mean of [X]. *)
Definition X_neg : list R := [1; 2; 3].
Definition Y_neg : list R := [2; 0; 1].
Definition X_left : list R := [-3; -2; -1].
Definition Y_left : list R := [1; 3; 2].

Ltac stats := unfold sample_var, sample_cov, mean, np_sum, len; cbn; lra.

Lemma stats_neg :
  mean X_neg = 2 /\ mean Y_neg = 1 /\ sample_var X_neg = 1 /\
  sample_var Y_neg = 1 /\ sample_cov X_neg Y_neg = - (1 / 2).
Proof. repeat split; stats. Qed.

Lemma stats_left :
  mean X_left = -2 /\ mean Y_left = 2 /\ sample_var X_left = 1 /\
  sample_var Y_left = 1 /\ sample_cov X_left Y_left = 1 / 2.
Proof. repeat split; stats. Qed.

Lemma valid_neg (alpha : R) : 0 < alpha < 1 -> valid_input X_neg Y_neg alpha.
Proof.
  intros Ha. destruct stats_neg as (_ & _ & Ex & Ey & _).
  unfold valid_input. rewrite Ex, Ey. cbn. repeat split; (lia || lra).
Qed.

Lemma valid_left (alpha : R) : 0 < alpha < 1 -> valid_input X_left Y_left alpha.
Proof.
  intros Ha. destruct stats_left as (_ & _ & Ex & Ey & _).
  unfold valid_input. rewrite Ex, Ey. cbn. repeat split; (lia || lra).
Qed.

Lemma pearson_neg : pearson X_neg Y_neg = - (1 / 2).
Proof.
  destruct stats_neg as (_ & _ & Ex & Ey & Ec).
  unfold pearson. rewrite Ex, Ey, Ec, sqrt_1. lra.
Qed.

Lemma pearson_left : pearson X_left Y_left = 1 / 2.
Proof.
  destruct stats_left as (_ & _ & Ex & Ey & Ec).
  unfold pearson. rewrite Ex, Ey, Ec, sqrt_1. lra.
Qed.

Lemma slope_neg : slope_of (cov_of X_neg Y_neg) (len Y_neg) = -1.
Proof.
  destruct stats_neg as (_ & _ & Ex & Ey & _).
  unfold slope_of. real_ops. rewrite corr_of_cov_sign, pearson_neg.
  rewrite np_sign_neg by lra.
  unfold SCX, SCY, cov_of. cbn [c00 c11]. real_ops. rewrite Ex, Ey.
  replace (1 * IZR (len Y_neg - 1) / (1 * IZR (len Y_neg - 1))) with 1
    by (cbn; lra).
  rewrite sqrt_1. lra.
Qed.

Lemma slope_left : slope_of (cov_of X_left Y_left) (len Y_left) = 1.
Proof.
  destruct stats_left as (_ & _ & Ex & Ey & _).
  unfold slope_of. real_ops. rewrite corr_of_cov_sign, pearson_left.
  rewrite np_sign_pos by lra.
  unfold SCX, SCY, cov_of. cbn [c00 c11]. real_ops. rewrite Ex, Ey.
  replace (1 * IZR (len Y_left - 1) / (1 * IZR (len Y_left - 1))) with 1
    by (cbn; lra).
  rewrite sqrt_1. lra.
Qed.

Lemma B_neg (alpha : R) :
  0 < alpha < 1 ->
  B_of f_isf (cov_of X_neg Y_neg) (len Y_neg) alpha = f_isf alpha 1 1 * (3 / 4).
Proof.
  intros Ha. unfold B_of. real_ops.
  rewrite (corr_of_cov_pearson _ _ alpha (valid_neg alpha Ha)), pearson_neg.
  cbn. lra.
Qed.

Lemma B_left (alpha : R) :
  0 < alpha < 1 ->
  B_of f_isf (cov_of X_left Y_left) (len Y_left) alpha = f_isf alpha 1 1 * (3 / 4).
Proof.
  intros Ha. unfold B_of. real_ops.
  rewrite (corr_of_cov_pearson _ _ alpha (valid_left alpha Ha)), pearson_left.
  cbn. lra.
Qed.

Lemma sv_left : sv_of (cov_of X_left Y_left) (len Y_left) = sqrt (3 / 4).
Proof.
  destruct stats_left as (_ & _ & Ex & Ey & Ec).
  unfold sv_of, SCX, SCY, SCP, cov_of. cbn [c00 c01 c11]. real_ops.
  rewrite Ex, Ey, Ec. f_equal. cbn. lra.
Qed.

(** For [B > 0] the two factors of the second interval lie on the two
    sides of 1. *)
Lemma ac_factors (B : R) :
  0 < B -> 0 < sqrt B /\ sqrt (B + 1) - sqrt B < 1 < sqrt (B + 1) + sqrt B.
Proof.
  intros HB. pose proof (sqrt_lt_R0 B HB) as Hc.
  assert (Ec : sqrt B * sqrt B = B) by (apply sqrt_sqrt; lra).
  assert (Ea : sqrt (B + 1) * sqrt (B + 1) = B + 1) by (apply sqrt_sqrt; lra).
  pose proof (sqrt_pos (B + 1)) as Ha.
  split; [exact Hc |]. split.
  - apply Rnot_le_lt. intros Hge. nra.
  - apply Rnot_le_lt. intros Hge. nra.
Qed.

(** C5: on the sample [X = [1, 2, 3]], [Y = [2, 0, 1]] (correlation -1/2,
    slope -1), whatever positive value the F quantile takes, the slope lies
    outside the pair returned as [slope_ci2]: it is below the entry
    labelled lower and above the entry labelled upper. *)
Theorem slope_outside_ci2 :
  0 < f_isf (5 / 100) 1 1 ->
  exists res,
    RMARegression t_isf f_isf X_neg Y_neg (5 / 100) = Returned res /\
    slope res = -1 /\
    slope res < fst (slope_ci2 res) /\
    snd (slope_ci2 res) < slope res.
Proof.
  intros HF. assert (Ha : 0 < 5 / 100 < 1) by lra.
  pose proof (valid_neg _ Ha) as Hv. on_valid Hv.
  rewrite slope_neg, (B_neg _ Ha).
  assert (HB : 0 < f_isf (5 / 100) 1 1 * (3 / 4)) by lra.
  destruct (ac_factors _ HB) as (_ & Hlo & Hhi).
  repeat split; lra.
Qed.

(** C4: the pairs returned as intervals are not always ordered.  On
    [X = [1, 2, 3]], [Y = [2, 0, 1]] (negative correlation) the second
    slope pair and the second intercept pair are in decreasing order; on
    [X = [-3, -2, -1]], [Y = [1, 3, 2]] (negative mean of [X]) both
    intercept pairs are.  The quantiles are only taken to be positive. *)
Theorem intervals_reversed :
  0 < t_isf (5 / 100 / 2) 1 ->
  0 < f_isf (5 / 100) 1 1 ->
  (exists res,
     RMARegression t_isf f_isf X_neg Y_neg (5 / 100) = Returned res /\
     snd (slope_ci2 res) < fst (slope_ci2 res) /\
     snd (intercept_ci2 res) < fst (intercept_ci2 res)) /\
  (exists res,
     RMARegression t_isf f_isf X_left Y_left (5 / 100) = Returned res /\
     snd (intercept_ci1 res) < fst (intercept_ci1 res) /\
     snd (intercept_ci2 res) < fst (intercept_ci2 res)).
Proof.
  intros Ht HF. assert (Ha : 0 < 5 / 100 < 1) by lra.
  assert (HB : 0 < f_isf (5 / 100) 1 1 * (3 / 4)) by lra.
  destruct (ac_factors _ HB) as (Hc & _ & _).
  split.
  - pose proof (valid_neg _ Ha) as Hv. on_valid Hv.
    destruct stats_neg as (Emx & Emy & _).
    rewrite slope_neg, (B_neg _ Ha), Emx, Emy. split; lra.
  - pose proof (valid_left _ Ha) as Hv. on_valid Hv.
    destruct stats_left as (Emx & Emy & _).
    rewrite slope_left, sv_left, (B_left _ Ha), Emx, Emy.
    assert (Hsv : 0 < sqrt (3 / 4)) by (apply sqrt_lt_R0; lra).
    change (len Y_left - 2)%Z with 1%Z.
    pose proof (Rmult_lt_0_compat _ _ Ht Hsv) as Hts.
    split; lra.
Qed.

(** *** The worked example: cabezon, Sokal and Rohlf Box 14.12 *)

Definition X_cab : list R := [14; 17; 24; 25; 27; 33; 34; 37; 40; 41; 42].
Definition Y_cab : list R := [61; 37; 65; 69; 54; 93; 87; 89; 100; 90; 97].

(** [x] agrees with the four-decimal figure [c]: it is less than half a
    unit of the fourth decimal place away. *)
Definition to_4dp (x c : R) : Prop := c - 0.00005 < x < c + 0.00005.

Lemma stats_cab :
  mean X_cab = 334 / 11 /\ mean Y_cab = 842 / 11 /\
  sample_var X_cab = 5129 / 55 /\ sample_var Y_cab = 23038 / 55 /\
  sample_cov X_cab Y_cab = 9591 / 55.
Proof. repeat split; stats. Qed.

Lemma valid_cab (alpha : R) : 0 < alpha < 1 -> valid_input X_cab Y_cab alpha.
Proof.
  intros Ha. destruct stats_cab as (_ & _ & Ex & Ey & _).
  unfold valid_input. rewrite Ex, Ey. cbn. repeat split; (lia || lra).
Qed.

Lemma sqrt_between (lo hi x : R) :
  0 <= lo -> lo * lo <= x -> x <= hi * hi -> 0 <= hi -> lo <= sqrt x <= hi.
Proof.
  intros Hlo Hl Hh Hhi. split.
  - rewrite <- (sqrt_square lo Hlo). apply sqrt_le_1_alt. exact Hl.
  - rewrite <- (sqrt_square hi Hhi). apply sqrt_le_1_alt. exact Hh.
Qed.

Lemma mult_between (xl xh yl yh x y : R) :
  0 <= xl -> 0 <= yl -> xl <= x <= xh -> yl <= y <= yh ->
  xl * yl <= x * y <= xh * yh.
Proof.
  intros Hxl Hyl [Hx1 Hx2] [Hy1 Hy2]. split.
  - apply Rmult_le_compat; assumption.
  - apply Rmult_le_compat; lra.
Qed.

Lemma pearson_sq_cab :
  0 < pearson X_cab Y_cab /\
  pearson X_cab Y_cab * pearson X_cab Y_cab = 3999447 / 5137474.
Proof.
  destruct stats_cab as (_ & _ & Ex & Ey & Ec).
  unfold pearson. rewrite Ex, Ey, Ec.
  assert (Hx : 0 < 5129 / 55) by lra. assert (Hy : 0 < 23038 / 55) by lra.
  pose proof (sqrt_lt_R0 _ Hx) as Hsx. pose proof (sqrt_lt_R0 _ Hy) as Hsy.
  pose proof (sqrt_sqrt _ (Rlt_le _ _ Hx)) as Esx.
  pose proof (sqrt_sqrt _ (Rlt_le _ _ Hy)) as Esy.
  set (sx := sqrt (5129 / 55)) in *. set (sy := sqrt (23038 / 55)) in *.
  split.
  - apply Rdiv_lt_0_compat; [lra | apply Rmult_lt_0_compat; assumption].
  - replace (9591 / 55 / (sx * sy) * (9591 / 55 / (sx * sy)))
      with (9591 / 55 * (9591 / 55) / ((sx * sx) * (sy * sy)))
      by (field; split; lra).
    rewrite Esx, Esy. lra.
Qed.

Lemma slope_cab : slope_of (cov_of X_cab Y_cab) (len Y_cab) = sqrt (23038 / 5129).
Proof.
  destruct stats_cab as (_ & _ & Ex & Ey & _).
  unfold slope_of. real_ops. rewrite corr_of_cov_sign.
  rewrite np_sign_pos by apply pearson_sq_cab.
  unfold SCX, SCY, cov_of. cbn [c00 c11]. real_ops. rewrite Ex, Ey.
  rewrite Rmult_1_l. f_equal. cbn. lra.
Qed.

Lemma sv_cab : sv_of (cov_of X_cab Y_cab) (len Y_cab) = sqrt (1138027 / 10293903).
Proof.
  destruct stats_cab as (_ & _ & Ex & Ey & Ec).
  unfold sv_of, SCX, SCY, SCP, cov_of. cbn [c00 c01 c11]. real_ops.
  rewrite Ex, Ey, Ec. f_equal. cbn. lra.
Qed.

Lemma B_cab (alpha : R) :
  0 < alpha < 1 ->
  B_of f_isf (cov_of X_cab Y_cab) (len Y_cab) alpha
  = f_isf alpha 1 9 * (1138027 / 5137474) / 9.
Proof.
  intros Ha. unfold B_of. real_ops.
  rewrite (corr_of_cov_pearson _ _ alpha (valid_cab alpha Ha)).
  destruct pearson_sq_cab as [_ ->]. cbn. lra.
Qed.

(** C6: on the cabezon data with [alpha = 0.05], given quantile routines
    that agree with the tables of Student's t and of F at 9 degrees of
    freedom (2.262157... and 5.117355...), every figure returned agrees to
    four decimal places with the published one. *)
Theorem worked_example :
  2.262157 <= t_isf (0.05 / 2) 9 <= 2.262158 ->
  5.117355 <= f_isf 0.05 1 9 <= 5.117356 ->
  exists res,
    RMARegression t_isf f_isf X_cab Y_cab 0.05 = Returned res /\
    to_4dp (slope res) 2.1194 /\
    to_4dp (intercept res) 12.1938 /\
    to_4dp (fst (intercept_ci1 res)) (-10.6445) /\
    to_4dp (snd (intercept_ci1 res)) 35.0320 /\
    to_4dp (fst (slope_ci1 res)) 1.3672 /\
    to_4dp (snd (slope_ci1 res)) 2.8715 /\
    to_4dp (fst (intercept_ci2 res)) (-14.5769) /\
    to_4dp (snd (intercept_ci2 res)) 31.0996 /\
    to_4dp (fst (slope_ci2 res)) 1.4967 /\
    to_4dp (snd (slope_ci2 res)) 3.0010.
Proof.
  intros Ht HF. assert (Ha : 0 < 0.05 < 1) by lra.
  pose proof (valid_cab _ Ha) as Hv. on_valid Hv.
  destruct stats_cab as (Emx & Emy & _).
  rewrite slope_cab, sv_cab, (B_cab _ Ha), Emx, Emy.
  change (len Y_cab - 2)%Z with 9%Z.
  set (t := t_isf (0.05 / 2) 9) in *. set (F := f_isf 0.05 1 9) in *.
  set (B := F * (1138027 / 5137474) / 9).
  assert (Hv' : 2.119366363 <= sqrt (23038 / 5129) <= 2.119366364)
    by (apply sqrt_between; lra).
  assert (Hsv : 0.332495863 <= sqrt (1138027 / 10293903) <= 0.332495864)
    by (apply sqrt_between; lra).
  assert (Hav : 1.061108976 <= sqrt (B + 1) <= 1.061108989)
    by (apply sqrt_between; unfold B; lra).
  assert (Hcv : 0.354897534 <= sqrt B <= 0.354897570)
    by (apply sqrt_between; unfold B; lra).
  set (v := sqrt (23038 / 5129)) in *.
  set (sv := sqrt (1138027 / 10293903)) in *.
  set (a := sqrt (B + 1)) in *. set (c := sqrt B) in *.
  assert (Hts : 2.262157 * 0.332495863 <= t * sv <= 2.262158 * 0.332495864)
    by (apply mult_between; lra).
  assert (Hqi : 2.119366363 * (1.061108976 - 0.354897570) <= v * (a - c)
                <= 2.119366364 * (1.061108989 - 0.354897534))
    by (apply mult_between; lra).
  assert (Hqs : 2.119366363 * (1.061108976 + 0.354897534) <= v * (a + c)
                <= 2.119366364 * (1.061108989 + 0.354897570))
    by (apply mult_between; lra).
  unfold to_4dp. repeat split; lra.
Qed.

End RealRMA.

(** ** binary64: what the code does where the specification wants an error *)

Section FloatRuns.
Open Scope float_scope.

(** IEEE 754 classes of a float, read off its decoded form. *)
Definition is_zero (x : float) : bool :=
  match Prim2SF x with S754_zero _ => true | _ => false end.

Definition non_finite (x : float) : bool :=
  match Prim2SF x with S754_infinity _ | S754_nan => true | _ => false end.

Definition zero_or_nan (x : float) : bool :=
  match Prim2SF x with S754_zero _ | S754_nan => true | _ => false end.

(** A zero times anything is a zero or a NaN. *)
Lemma zero_mul (x y : float) :
  is_zero x = true -> zero_or_nan (x * y) = true.
Proof.
  unfold is_zero, zero_or_nan. rewrite FloatAxioms.mul_spec.
  destruct (Prim2SF x) as [sx | sx | | sx mx ex]; try discriminate. intros _.
  destruct (Prim2SF y) as [sy | sy | | sy my ey]; reflexivity.
Qed.

(** Dividing by a zero, or by a NaN, never gives a finite number. *)
Lemma div_by_zero (x y : float) :
  zero_or_nan y = true -> non_finite (x / y) = true.
Proof.
  unfold zero_or_nan, non_finite. rewrite FloatAxioms.div_spec.
  destruct (Prim2SF y) as [sy | sy | | sy my ey]; try discriminate; intros _;
    destruct (Prim2SF x) as [sx | sx | | sx mx ex]; reflexivity.
Qed.

Lemma sqrt_non_finite (x : float) :
  non_finite x = true -> non_finite (PrimFloat.sqrt x) = true.
Proof.
  unfold non_finite. rewrite FloatAxioms.sqrt_spec.
  destruct (Prim2SF x) as [sx | [|] | | sx mx ex]; try discriminate; reflexivity.
Qed.

Lemma mul_non_finite (x y : float) :
  non_finite y = true -> non_finite (x * y) = true.
Proof.
  unfold non_finite. rewrite FloatAxioms.mul_spec.
  destruct (Prim2SF y) as [sy | sy | | sy my ey]; try discriminate; intros _;
    destruct (Prim2SF x) as [sx | sx | | sx mx ex]; reflexivity.
Qed.

(** A sample whose [X] is constant, and one of two observations. *)
Definition X_const : list float := [1; 1; 1].
Definition Y_ramp : list float := [1; 2; 3].
Definition X_two : list float := [1; 2].
Definition Y_two : list float := [1; 3].
Definition alpha_default : float := 5 / 100.

(** C1, as the code has it: no test guards the division by [SCX].  When
    numpy's covariance is returned and the sample variance of [X] in it is a
    zero, the call raises nothing: the slope formula divides by
    [SCX = Var(X) * (n - 1)], and the record returned has an infinity or a
    NaN for its slope. *)
Theorem zero_variance_slope_not_finite
  (t_isf : float -> Z -> float) (f_isf : float -> Z -> Z -> float)
  (X Y : list float) (alpha : float) (S : cov_matrix) :
  np_cov X Y = Returned S ->
  is_zero (c00 S) = true ->
  exists res,
    RMARegression t_isf f_isf X Y alpha = Returned res /\
    non_finite (slope res) = true.
Proof.
  intros HS Hz. rewrite (RMARegression_estimate t_isf f_isf X Y alpha S HS).
  eexists. split; [reflexivity |].
  unfold estimate. cbn [slope]. unfold slope_of.
  apply mul_non_finite, sqrt_non_finite, div_by_zero.
  unfold SCX. apply zero_mul. exact Hz.
Qed.

(** On [X = [1, 1, 1]], [Y = [1, 2, 3]] the variance of [X] is zero, and the
    call, whatever the quantile routines are, raises no [DegenerateSample]:
    it returns a record whose slope and intercept are NaN. *)
Lemma constant_X_returns_nan :
  np_cov X_const Y_ramp = Returned (mkCov 0 0 1) /\
  forall (t_isf : float -> Z -> float) (f_isf : float -> Z -> Z -> float),
    RMARegression t_isf f_isf X_const Y_ramp alpha_default
    <> Raised "DegenerateSample" /\
    exists res,
      RMARegression t_isf f_isf X_const Y_ramp alpha_default = Returned res /\
      is_nan (slope res) = true /\ is_nan (intercept res) = true.
Proof.
  split; [reflexivity |]. intros t_isf f_isf. split.
  - discriminate.
  - eexists. split; [reflexivity |]. split; reflexivity.
Qed.

(** On two observations, on [alpha = 0] and on [alpha = 1] a record is
    returned and no [InsufficientSample] or [InvalidAlpha] is raised; on
    samples of different lengths the exception is numpy's [ValueError], not
    [InvalidInput]. *)
Lemma preconditions_unchecked :
  (forall (t_isf : float -> Z -> float) (f_isf : float -> Z -> Z -> float),
     RMARegression t_isf f_isf X_two Y_two alpha_default
     <> Raised "InsufficientSample" /\
     exists res,
       RMARegression t_isf f_isf X_two Y_two alpha_default = Returned res /\
       slope res = 2 /\ intercept res = -1) /\
  (forall (t_isf : float -> Z -> float) (f_isf : float -> Z -> Z -> float),
     RMARegression t_isf f_isf Y_ramp Y_ramp 0 <> Raised "InvalidAlpha" /\
     exists res,
       RMARegression t_isf f_isf Y_ramp Y_ramp 0 = Returned res /\
       slope res = 1 /\ ci res = 1) /\
  (forall (t_isf : float -> Z -> float) (f_isf : float -> Z -> Z -> float),
     RMARegression t_isf f_isf Y_ramp Y_ramp 1 <> Raised "InvalidAlpha" /\
     exists res,
       RMARegression t_isf f_isf Y_ramp Y_ramp 1 = Returned res /\
       slope res = 1 /\ ci res = 0) /\
  (forall (t_isf : float -> Z -> float) (f_isf : float -> Z -> Z -> float),
     RMARegression t_isf f_isf Y_ramp Y_two alpha_default
     <> Raised "InvalidInput" /\
     RMARegression t_isf f_isf Y_ramp Y_two alpha_default
     = Raised "ValueError").
Proof.
  split; [| split; [| split]]; intros t_isf f_isf; split;
    try discriminate; try reflexivity;
    eexists; (split; [reflexivity |]); split; reflexivity.
Qed.

End FloatRuns.

(** C2, as the code has it: the function checks nothing itself.  Samples
    of different lengths make [np.cov] raise [ValueError], whatever the
    quantile routines would return; samples of equal length, of any size
    and with any [alpha], get a record back. *)
Theorem outcome_by_lengths {T : Type} `{Scalar T}
  (t_isf : T -> Z -> T) (f_isf : T -> Z -> Z -> T)
  (X Y : list T) (alpha : T) :
  (len X <> len Y ->
   RMARegression t_isf f_isf X Y alpha = Raised "ValueError") /\
  (len X = len Y ->
   exists res, RMARegression t_isf f_isf X Y alpha = Returned res).
Proof.
  split.
  - apply RMARegression_mismatch.
  - apply RMARegression_aligned.
Qed.

(** ** The theorems at concrete inputs *)

Section Instances.
Open Scope R_scope.

(** The two table entries the examples need: the 5% two-sided points of
    Student's t and of F, for 9 degrees of freedom and, otherwise, for 1. *)
Definition t_table (q : R) (df : Z) : R :=
  if (df =? 9)%Z then 2.2621572 else 12.7062.

Definition f_table (q : R) (dfn dfd : Z) : R :=
  if (dfd =? 9)%Z then 5.1173550 else 161.4476.

Lemma point_estimates_cab :
  valid_input X_cab Y_cab 0.05 /\
  exists res,
    RMARegression t_table f_table X_cab Y_cab 0.05 = Returned res /\
    slope res
    = np_sign (pearson X_cab Y_cab)
      * sqrt ((IZR (len X_cab - 1) * sample_var Y_cab)
              / (IZR (len X_cab - 1) * sample_var X_cab)) /\
    intercept res = mean Y_cab - mean X_cab * slope res.
Proof.
  assert (Hv : valid_input X_cab Y_cab 0.05) by (apply valid_cab; lra).
  split; [exact Hv | exact (point_estimates t_table f_table _ _ _ Hv)].
Defined.

Lemma RSquare_bounds_cab :
  valid_input X_cab Y_cab 0.05 /\
  exists res,
    RMARegression t_table f_table X_cab Y_cab 0.05 = Returned res /\
    RSquare res = pearson X_cab Y_cab * pearson X_cab Y_cab /\
    0 <= RSquare res <= 1.
Proof.
  assert (Hv : valid_input X_cab Y_cab 0.05) by (apply valid_cab; lra).
  split; [exact Hv | exact (RSquare_bounds t_table f_table _ _ _ Hv)].
Defined.

Lemma slope_ci2_product_cab :
  valid_input X_cab Y_cab 0.05 /\
  0 <= f_table 0.05 1 (len Y_cab - 2) /\
  exists res,
    RMARegression t_table f_table X_cab Y_cab 0.05 = Returned res /\
    fst (slope_ci2 res) * snd (slope_ci2 res) = slope res * slope res.
Proof.
  assert (Hv : valid_input X_cab Y_cab 0.05) by (apply valid_cab; lra).
  assert (HF : 0 <= f_table 0.05 1 (len Y_cab - 2)) by (cbn; lra).
  split; [exact Hv |].
  split; [exact HF | exact (slope_ci2_product t_table f_table _ _ _ Hv HF)].
Defined.


(** The sample [X_left], [Y_left] with its last observation moved to the
    front. *)
Lemma permutation_invariance_left :
  valid_input X_left Y_left 0.05 /\
  len [-1; -3; -2] = len [2; 1; 3] /\
  Permutation (combine X_left Y_left) (combine [-1; -3; -2] [2; 1; 3]) /\
  exists res,
    RMARegression t_table f_table X_left Y_left 0.05 = Returned res /\
    RMARegression t_table f_table [-1; -3; -2] [2; 1; 3] 0.05 = Returned res.
Proof.
  assert (Hv : valid_input X_left Y_left 0.05) by (apply valid_left; lra).
  assert (Hl : len [-1; -3; -2] = len [2; 1; 3]) by reflexivity.
  assert (HP : Permutation (combine X_left Y_left)
                           (combine [-1; -3; -2] [2; 1; 3])).
  { cbn. apply Permutation_sym. apply (Permutation_cons_app [_; _] []).
    apply Permutation_refl. }
  repeat (split; [assumption |]).
  exact (permutation_invariance t_table f_table _ _ _ _ _ Hv Hl HP).
Defined.

Lemma slope_outside_ci2_table :
  0 < f_table (5 / 100) 1 1 /\
  exists res,
    RMARegression t_table f_table X_neg Y_neg (5 / 100) = Returned res /\
    slope res = -1 /\
    slope res < fst (slope_ci2 res) /\
    snd (slope_ci2 res) < slope res.
Proof.
  assert (HF : 0 < f_table (5 / 100) 1 1) by (cbn; lra).
  split; [exact HF | exact (slope_outside_ci2 t_table f_table HF)].
Defined.

Lemma intervals_reversed_table :
  0 < t_table (5 / 100 / 2) 1 /\ 0 < f_table (5 / 100) 1 1 /\
  (exists res,
     RMARegression t_table f_table X_neg Y_neg (5 / 100) = Returned res /\
     snd (slope_ci2 res) < fst (slope_ci2 res) /\
     snd (intercept_ci2 res) < fst (intercept_ci2 res)) /\
  (exists res,
     RMARegression t_table f_table X_left Y_left (5 / 100) = Returned res /\
     snd (intercept_ci1 res) < fst (intercept_ci1 res) /\
     snd (intercept_ci2 res) < fst (intercept_ci2 res)).
Proof.
  assert (Ht : 0 < t_table (5 / 100 / 2) 1) by (cbn; lra).
  assert (HF : 0 < f_table (5 / 100) 1 1) by (cbn; lra).
  split; [exact Ht |].
  split; [exact HF | exact (intervals_reversed t_table f_table Ht HF)].
Defined.

Lemma worked_example_table :
  2.262157 <= t_table (0.05 / 2) 9 <= 2.262158 /\
  5.117355 <= f_table 0.05 1 9 <= 5.117356 /\
  exists res,
    RMARegression t_table f_table X_cab Y_cab 0.05 = Returned res /\
    to_4dp (slope res) 2.1194 /\
    to_4dp (intercept res) 12.1938 /\
    to_4dp (fst (intercept_ci1 res)) (-10.6445) /\
    to_4dp (snd (intercept_ci1 res)) 35.0320 /\
    to_4dp (fst (slope_ci1 res)) 1.3672 /\
    to_4dp (snd (slope_ci1 res)) 2.8715 /\
    to_4dp (fst (intercept_ci2 res)) (-14.5769) /\
    to_4dp (snd (intercept_ci2 res)) 31.0996 /\
    to_4dp (fst (slope_ci2 res)) 1.4967 /\
    to_4dp (snd (slope_ci2 res)) 3.0010.
Proof.
  assert (Ht : 2.262157 <= t_table (0.05 / 2) 9 <= 2.262158) by (cbn; lra).
  assert (HF : 5.117355 <= f_table 0.05 1 9 <= 5.117356) by (cbn; lra).
  split; [exact Ht |].
  split; [exact HF | exact (worked_example t_table f_table Ht HF)].
Defined.

End Instances.

Section FloatInstances.
Open Scope float_scope.

(** The same two table entries in binary64, for one degree of freedom. *)
Definition t_table64 (q : float) (df : Z) : float := 127062 / 10000.
Definition f_table64 (q : float) (dfn dfd : Z) : float := 1614476 / 10000.

Lemma zero_variance_slope_not_finite_const :
  np_cov X_const Y_ramp = Returned (mkCov 0 0 1) /\
  is_zero (c00 (mkCov 0 0 1)) = true /\
  exists res,
    RMARegression t_table64 f_table64 X_const Y_ramp alpha_default
    = Returned res /\
    non_finite (slope res) = true.
Proof.
  assert (HS : np_cov X_const Y_ramp = Returned (mkCov 0 0 1)) by reflexivity.
  assert (Hz : is_zero (c00 (mkCov 0 0 1)) = true) by reflexivity.
  split; [exact HS |].
  split; [exact Hz |].
  exact (zero_variance_slope_not_finite
           t_table64 f_table64 _ _ alpha_default _ HS Hz).
Defined.

(** The worked example run in binary64, with the two quantiles as scipy
    returns them (2.262157162740992 and 5.117355029199227): the same four
    decimals as over the reals. *)
Definition X_cab64 : list float := map float_of_Z [14; 17; 24; 25; 27; 33; 34; 37; 40; 41; 42]%Z.
Definition Y_cab64 : list float := map float_of_Z [61; 37; 65; 69; 54; 93; 87; 89; 100; 90; 97]%Z.
Definition t_scipy (q : float) (df : Z) : float := 0x1.218e5dac313e3p+1.
Definition f_scipy (q : float) (dfn dfd : Z) : float := 0x1.4782beab1ba2bp+2.

(** [x], scaled by 10000, is within a half of the integer [c]. *)
Definition near_4dp (x : float) (c : Z) : bool :=
  PrimFloat.abs (x * 10000 - float_of_Z c) <? 0x1p-1.

Example worked_example_binary64 :
  exists res,
    RMARegression t_scipy f_scipy X_cab64 Y_cab64 alpha_default = Returned res /\
    near_4dp (slope res) 21194 = true /\
    near_4dp (intercept res) 121938 = true /\
    near_4dp (fst (intercept_ci1 res)) (-106445) = true /\
    near_4dp (snd (intercept_ci1 res)) 350320 = true /\
    near_4dp (fst (slope_ci1 res)) 13672 = true /\
    near_4dp (snd (slope_ci1 res)) 28715 = true /\
    near_4dp (fst (intercept_ci2 res)) (-145769) = true /\
    near_4dp (snd (intercept_ci2 res)) 310996 = true /\
    near_4dp (fst (slope_ci2 res)) 14967 = true /\
    near_4dp (snd (slope_ci2 res)) 30010 = true.
Proof.
  eexists. split; [reflexivity |]. repeat split; vm_compute; reflexivity.
Qed.

End FloatInstances.

(** ** Further properties of the estimator, over [R] *)

Ltac rops :=
  cbn [of_int plus minus times over root lt same real_scalar] in *.

Ltac open_valid H :=
  rewrite (RMARegression_valid _ _ _ _ _ H); eexists; split; [reflexivity |];
  unfold estimate; cbn [slope intercept ci slope_ci1 intercept_ci1 slope_ci2
                        intercept_ci2 RSquare fst snd]; rops.

Section Estimator.
Open Scope R_scope.

Variable t_isf : R -> Z -> R.
Variable f_isf : R -> Z -> Z -> R.

Lemma np_sign_opp (x : R) : np_sign (- x) = - np_sign x.
Proof.
  destruct (Rtotal_order x 0) as [Hx | [Hx | Hx]].
  - rewrite (np_sign_neg x Hx), np_sign_pos; lra.
  - subst x. rewrite Ropp_0, np_sign_zero. lra.
  - rewrite (np_sign_pos x Hx), np_sign_neg; lra.
Qed.

Lemma np_sign_sq (x : R) : x <> 0 -> np_sign x * np_sign x = 1.
Proof.
  intros Hx. destruct (Rtotal_order x 0) as [H | [H | H]]; [| contradiction |].
  - rewrite (np_sign_neg x H). lra.
  - rewrite (np_sign_pos x H). lra.
Qed.

Lemma np_sign_abs (x : R) : np_sign x * Rabs x = x.
Proof.
  destruct (Rtotal_order x 0) as [H | [H | H]].
  - rewrite (np_sign_neg x H), Rabs_left; lra.
  - subst x. rewrite np_sign_zero. lra.
  - rewrite (np_sign_pos x H), Rabs_right; lra.
Qed.

(** The numbers a valid input provides. *)
Lemma valid_facts (X Y : list R) (alpha : R) :
  valid_input X Y alpha ->
  0 < IZR (len Y - 1) /\ 0 < IZR (len Y - 2) /\
  0 < sqrt (sample_var X) /\ 0 < sqrt (sample_var Y) /\
  sqrt (sample_var X) * sqrt (sample_var X) = sample_var X /\
  sqrt (sample_var Y) * sqrt (sample_var Y) = sample_var Y.
Proof.
  intros (Hlen & Hn & Hx & Hy & _). rewrite <- Hlen.
  repeat split; try (apply IZR_lt; lia); try (apply sqrt_lt_R0; assumption);
    apply sqrt_sqrt; lra.
Qed.

Lemma slope_of_valid (X Y : list R) (alpha : R) :
  valid_input X Y alpha ->
  slope_of (cov_of X Y) (len Y)
  = np_sign (pearson X Y) * (sqrt (sample_var Y) / sqrt (sample_var X)).
Proof.
  intros Hv. destruct (valid_facts X Y alpha Hv) as (HN1 & _).
  destruct Hv as (Hlen & Hn & Hx & Hy & _).
  unfold slope_of. rops. rewrite corr_of_cov_sign. f_equal.
  rewrite <- sqrt_div_alt by exact Hx. f_equal.
  unfold SCX, SCY, cov_of. cbn [c00 c11]. rops. field. split; lra.
Qed.

Lemma pearson_zero_iff (X Y : list R) (alpha : R) :
  valid_input X Y alpha ->
  (pearson X Y = 0 <-> sample_cov X Y = 0).
Proof.
  intros Hv. destruct (valid_facts X Y alpha Hv) as (_ & _ & Hsx & Hsy & _).
  assert (Hd : 0 < sqrt (sample_var X) * sqrt (sample_var Y))
    by (apply Rmult_lt_0_compat; assumption).
  unfold pearson. split; intros E.
  - apply (Rmult_eq_compat_r (sqrt (sample_var X) * sqrt (sample_var Y))) in E.
    unfold Rdiv in E. rewrite Rmult_assoc, Rinv_l in E; lra.
  - rewrite E. unfold Rdiv. ring.
Qed.

Lemma pearson_sq (X Y : list R) (alpha : R) :
  valid_input X Y alpha ->
  pearson X Y * pearson X Y
  = sample_cov X Y * sample_cov X Y / (sample_var X * sample_var Y).
Proof.
  intros Hv.
  destruct (valid_facts X Y alpha Hv) as (_ & _ & Hsx & Hsy & Ex & Ey).
  unfold pearson.
  set (sx := sqrt (sample_var X)) in *. set (sy := sqrt (sample_var Y)) in *.
  rewrite <- Ex, <- Ey. field. split; lra.
Qed.

(** X1: the slope is the geometric mean of the two least-squares
    coefficients the docstring speaks of: on a valid input with a non-zero
    covariance, its square is the coefficient of [Y] on [X] divided by the
    coefficient of [X] on [Y]; in any case it is [Var(Y) / Var(X)] unless
    the covariance is zero. *)
Theorem slope_geometric_mean (X Y : list R) (alpha : R) :
  valid_input X Y alpha ->
  sample_cov X Y <> 0 ->
  exists res,
    RMARegression t_isf f_isf X Y alpha = Returned res /\
    slope res * slope res = sample_var Y / sample_var X /\
    slope res * slope res
    = (sample_cov X Y / sample_var X) / (sample_cov X Y / sample_var Y).
Proof.
  intros Hv Hc.
  destruct (valid_facts X Y alpha Hv) as (_ & _ & Hsx & Hsy & Ex & Ey).
  assert (Hr : pearson X Y <> 0)
    by (intros E; apply Hc; apply (pearson_zero_iff X Y alpha Hv); exact E).
  pose proof (np_sign_sq _ Hr) as Hs.
  pose proof Hv as (_ & _ & Hx & Hy & _).
  open_valid Hv. rewrite (slope_of_valid X Y alpha Hv).
  set (sg := np_sign (pearson X Y)) in *.
  set (sx := sqrt (sample_var X)) in *. set (sy := sqrt (sample_var Y)) in *.
  assert (E : sg * (sy / sx) * (sg * (sy / sx)) = sample_var Y / sample_var X).
  { replace (sg * (sy / sx) * (sg * (sy / sx)))
      with ((sg * sg) * ((sy * sy) / (sx * sx))) by (field; lra).
    rewrite Hs, Ex, Ey. ring. }
  split; [exact E |]. rewrite E. field. repeat split; lra.
Qed.

(** X2: the least-squares slope of [Y] on [X], [Cov(X,Y) / Var(X)], is the
    returned slope times [|r|]; so it is never larger in size than the
    returned slope (what the docstring calls the underestimation of
    Model I). *)
Theorem least_squares_slope (X Y : list R) (alpha : R) :
  valid_input X Y alpha ->
  exists res,
    RMARegression t_isf f_isf X Y alpha = Returned res /\
    sample_cov X Y / sample_var X = slope res * Rabs (pearson X Y) /\
    Rabs (sample_cov X Y / sample_var X) <= Rabs (slope res).
Proof.
  intros Hv.
  destruct (valid_facts X Y alpha Hv) as (_ & _ & Hsx & Hsy & Ex & Ey).
  pose proof Hv as (Hlen & _ & Hx & Hy & _).
  pose proof (pearson_range X Y Hlen Hx Hy) as Hr.
  open_valid Hv. rewrite (slope_of_valid X Y alpha Hv).
  assert (E : sample_cov X Y / sample_var X
              = np_sign (pearson X Y)
                * (sqrt (sample_var Y) / sqrt (sample_var X))
                * Rabs (pearson X Y)).
  { replace (np_sign (pearson X Y)
             * (sqrt (sample_var Y) / sqrt (sample_var X))
             * Rabs (pearson X Y))
      with (np_sign (pearson X Y) * Rabs (pearson X Y)
            * (sqrt (sample_var Y) / sqrt (sample_var X))) by ring.
    rewrite np_sign_abs. unfold pearson.
    set (sx := sqrt (sample_var X)) in *. set (sy := sqrt (sample_var Y)) in *.
    rewrite <- Ex. field. split; lra. }
  split; [exact E |]. rewrite E, Rabs_mult, Rabs_Rabsolu.
  rewrite <- (Rmult_1_r (Rabs (np_sign _ * _))) at 2.
  apply Rmult_le_compat_l; [apply Rabs_pos |].
  apply Rabs_le. exact Hr.
Qed.

(** X3: when the sample covariance is zero, [np.sign] returns 0 and the
    call reports a flat line: slope 0, intercept [mean(Y)], [RSquare] 0 and
    a second slope interval reduced to [(0, 0)]. *)
Theorem uncorrelated_gives_flat_line (X Y : list R) (alpha : R) :
  valid_input X Y alpha ->
  sample_cov X Y = 0 ->
  exists res,
    RMARegression t_isf f_isf X Y alpha = Returned res /\
    slope res = 0 /\ intercept res = mean Y /\ RSquare res = 0 /\
    slope_ci2 res = (0, 0).
Proof.
  intros Hv Hc.
  assert (Hr : pearson X Y = 0) by (apply (pearson_zero_iff X Y alpha Hv); exact Hc).
  open_valid Hv.
  rewrite (slope_of_valid X Y alpha Hv), (corr_of_cov_pearson X Y alpha Hv), Hr.
  rewrite np_sign_zero, !Rmult_0_l.
  repeat split; try ring; try (f_equal; ring).
Qed.

(** X4: the Ricker slope interval is what its comments say whenever the
    t quantile is not negative: it is ordered, it contains the slope, and
    the slope is its midpoint. *)
Theorem ricker_slope_interval (X Y : list R) (alpha : R) :
  valid_input X Y alpha ->
  0 <= t_isf (alpha / 2) (len Y - 2) ->
  exists res,
    RMARegression t_isf f_isf X Y alpha = Returned res /\
    fst (slope_ci1 res) <= slope res <= snd (slope_ci1 res) /\
    (fst (slope_ci1 res) + snd (slope_ci1 res)) / 2 = slope res.
Proof.
  intros Hv Ht. open_valid Hv.
  pose proof (sv_of_nonneg (cov_of X Y) (len Y)) as Hsv.
  set (sv := sv_of _ _) in *. set (t := t_isf _ _) in *.
  split; [nra | field].
Qed.

(** X5: the second slope interval contains the slope between its two
    entries, in the order the comments give when the slope is not negative
    and in the opposite order when it is not positive. *)
Theorem second_slope_interval_by_sign (X Y : list R) (alpha : R) :
  valid_input X Y alpha ->
  0 <= f_isf alpha 1 (len Y - 2) ->
  exists res,
    RMARegression t_isf f_isf X Y alpha = Returned res /\
    (0 <= slope res ->
     fst (slope_ci2 res) <= slope res <= snd (slope_ci2 res)) /\
    (slope res <= 0 ->
     snd (slope_ci2 res) <= slope res <= fst (slope_ci2 res)).
Proof.
  intros Hv HF. pose proof Hv as (Hlen & Hn & _). open_valid Hv.
  assert (HB : 0 <= B_of f_isf (cov_of X Y) (len Y) alpha).
  { apply B_of_nonneg; [lia | exact HF]. }
  set (B := B_of _ _ _ _) in *. set (v := slope_of _ _) in *.
  pose proof (sqrt_pos B) as Hc.
  pose proof (sqrt_sqrt B HB) as Ec.
  assert (Ea : sqrt (B + 1) * sqrt (B + 1) = B + 1) by (apply sqrt_sqrt; lra).
  assert (Ha : 1 <= sqrt (B + 1)).
  { rewrite <- sqrt_1 at 1. apply sqrt_le_1_alt. lra. }
  assert (Hac : sqrt (B + 1) <= 1 + sqrt B).
  { apply Rnot_lt_le. intros Hgt. nra. }
  split; intros Hs; split; nra.
Qed.

(** X6: the intercept pairs follow the sign of [mean(X)]: with a t quantile
    that is not negative, the first pair is ordered around the intercept
    when [mean(X) >= 0], and in the opposite order when [mean(X) <= 0]. *)
Theorem ricker_intercept_interval_by_mean (X Y : list R) (alpha : R) :
  valid_input X Y alpha ->
  0 <= t_isf (alpha / 2) (len Y - 2) ->
  exists res,
    RMARegression t_isf f_isf X Y alpha = Returned res /\
    (0 <= mean X ->
     fst (intercept_ci1 res) <= intercept res <= snd (intercept_ci1 res)) /\
    (mean X <= 0 ->
     snd (intercept_ci1 res) <= intercept res <= fst (intercept_ci1 res)).
Proof.
  intros Hv Ht. open_valid Hv.
  pose proof (sv_of_nonneg (cov_of X Y) (len Y)) as Hsv.
  set (sv := sv_of _ _) in *. set (t := t_isf _ _) in *.
  set (v := slope_of _ _). set (mx := mean X). set (my := mean Y).
  pose proof (Rmult_le_pos _ _ Ht Hsv) as Hts.
  split; intros Hm; split; nra.
Qed.

(** *** Exchanging the two samples *)

Lemma combine_swap (h : R * R -> R) (X Y : list R) :
  map h (combine Y X) = map (fun p => h (snd p, fst p)) (combine X Y).
Proof.
  revert Y. induction X as [| x X IH]; intros [| y Y]; cbn [map combine fst snd];
    try reflexivity.
  now rewrite IH.
Qed.

Lemma sample_cov_sym (X Y : list R) :
  len X = len Y -> sample_cov Y X = sample_cov X Y.
Proof.
  intros Hl. unfold sample_cov. rewrite combine_swap, Hl. cbn [fst snd].
  f_equal. apply f_equal. apply map_ext. intros p. ring.
Qed.

Lemma pearson_sym (X Y : list R) :
  len X = len Y -> pearson Y X = pearson X Y.
Proof.
  intros Hl. unfold pearson. rewrite (sample_cov_sym X Y Hl).
  now rewrite (Rmult_comm (sqrt (sample_var Y))).
Qed.

Lemma valid_input_sym (X Y : list R) (alpha : R) :
  valid_input X Y alpha -> valid_input Y X alpha.
Proof.
  intros (Hlen & Hn & Hx & Hy & Ha). unfold valid_input. rewrite <- Hlen.
  repeat split; (assumption || lra || lia).
Qed.

(** X7: the fit treats the two variables alike: on a valid input with a
    non-zero covariance, regressing [X] on [Y] gives the reciprocal of the
    slope of [Y] on [X] (the two calls describe the same line), with the
    same [RSquare]. *)
Theorem exchange_gives_reciprocal_slope (X Y : list R) (alpha : R) :
  valid_input X Y alpha ->
  sample_cov X Y <> 0 ->
  exists res res',
    RMARegression t_isf f_isf X Y alpha = Returned res /\
    RMARegression t_isf f_isf Y X alpha = Returned res' /\
    slope res' * slope res = 1 /\
    RSquare res' = RSquare res.
Proof.
  intros Hv Hc. pose proof (valid_input_sym X Y alpha Hv) as Hv'.
  destruct (valid_facts X Y alpha Hv) as (_ & _ & Hsx & Hsy & _).
  assert (Hr : pearson X Y <> 0)
    by (intros E; apply Hc; apply (pearson_zero_iff X Y alpha Hv); exact E).
  pose proof (np_sign_sq _ Hr) as Hs.
  pose proof Hv as (Hlen & _).
  rewrite (RMARegression_valid _ _ _ _ _ Hv), (RMARegression_valid _ _ _ _ _ Hv').
  do 2 eexists. split; [reflexivity |]. split; [reflexivity |].
  unfold estimate. cbn [slope RSquare]. rops.
  rewrite (slope_of_valid X Y alpha Hv), (slope_of_valid Y X alpha Hv').
  rewrite (corr_of_cov_pearson _ _ alpha Hv'), (corr_of_cov_pearson _ _ alpha Hv).
  rewrite (pearson_sym X Y Hlen).
  set (sg := np_sign (pearson X Y)) in *.
  set (sx := sqrt (sample_var X)) in *. set (sy := sqrt (sample_var Y)) in *.
  split; [| reflexivity].
  replace (sg * (sx / sy) * (sg * (sy / sx))) with (sg * sg)
    by (field; split; lra).
  exact Hs.
Qed.

(** *** Shifting the two samples *)

Lemma len_cons (x : R) (l : list R) : IZR (len (x :: l)) = IZR (len l) + 1.
Proof.
  unfold len. cbn [List.length]. rewrite Nat2Z.inj_succ, succ_IZR. reflexivity.
Qed.

Lemma sumR_shift (a : R) (l : list R) :
  np_sum (map (fun x => x + a) l) = np_sum l + IZR (len l) * a.
Proof.
  induction l as [| x l IH]; cbn [map].
  - rewrite sumR_nil. cbn. ring.
  - rewrite !sumR_cons, IH, len_cons. ring.
Qed.

Lemma mean_shift (a : R) (X : list R) :
  (1 <= len X)%Z -> mean (map (fun x => x + a) X) = mean X + a.
Proof.
  intros Hn. unfold mean. rewrite len_map, sumR_shift. rops.
  assert (Hz : 0 < IZR (len X)) by (apply IZR_lt; lia).
  field. lra.
Qed.

Lemma sample_var_shift (a : R) (X : list R) :
  (1 <= len X)%Z -> sample_var (map (fun x => x + a) X) = sample_var X.
Proof.
  intros Hn. unfold sample_var. rewrite len_map, (mean_shift a X Hn), map_map.
  f_equal. apply f_equal. apply map_ext. intros x. ring.
Qed.

Lemma combine_map_both (f g : R -> R) (X Y : list R) :
  combine (map f X) (map g Y)
  = map (fun p => (f (fst p), g (snd p))) (combine X Y).
Proof.
  revert Y. induction X as [| x X IH]; intros [| y Y]; cbn [map combine fst snd];
    try reflexivity.
  now rewrite IH.
Qed.

Lemma sample_cov_shift (a b : R) (X Y : list R) :
  (1 <= len X)%Z -> len X = len Y ->
  sample_cov (map (fun x => x + a) X) (map (fun y => y + b) Y)
  = sample_cov X Y.
Proof.
  intros Hn Hl. unfold sample_cov.
  rewrite len_map, (mean_shift a X Hn), (mean_shift b Y) by lia.
  rewrite combine_map_both, map_map. cbn [fst snd].
  f_equal. apply f_equal. apply map_ext. intros p. ring.
Qed.

(** X8: adding a constant [a] to every [X] and a constant [b] to every
    [Y] leaves the slope, [RSquare] and both slope intervals as they are,
    and moves the intercept to [intercept + b - a * slope]. *)
Theorem translation_equivariance (a b : R) (X Y : list R) (alpha : R) :
  valid_input X Y alpha ->
  exists res res',
    RMARegression t_isf f_isf X Y alpha = Returned res /\
    RMARegression t_isf f_isf
      (map (fun x => x + a) X) (map (fun y => y + b) Y) alpha = Returned res' /\
    slope res' = slope res /\
    intercept res' = intercept res + b - a * slope res /\
    RSquare res' = RSquare res /\
    slope_ci1 res' = slope_ci1 res /\
    slope_ci2 res' = slope_ci2 res.
Proof.
  intros Hv. pose proof Hv as (Hlen & Hn & Hx & Hy & Ha).
  assert (Ec : cov_of (map (fun x => x + a) X) (map (fun y => y + b) Y)
               = cov_of X Y).
  { unfold cov_of. rewrite !sample_var_shift, sample_cov_shift by lia.
    reflexivity. }
  assert (Hv' : valid_input (map (fun x => x + a) X) (map (fun y => y + b) Y) alpha).
  { unfold valid_input. rewrite !len_map, !sample_var_shift by lia.
    repeat split; (assumption || lra). }
  rewrite (RMARegression_valid _ _ _ _ _ Hv), (RMARegression_valid _ _ _ _ _ Hv').
  do 2 eexists. split; [reflexivity |]. split; [reflexivity |].
  rewrite Ec, !len_map, !mean_shift by lia.
  unfold estimate. cbn [slope intercept RSquare slope_ci1 slope_ci2]. rops.
  repeat split. ring.
Qed.

(** *** Reflecting [Y] *)

Lemma map_opp_scale (Y : list R) :
  map (fun y => - y) Y = map (fun y => -1 * y) Y.
Proof. apply map_ext. intros y. ring. Qed.

Lemma combine_map_r (g : R -> R) (X Y : list R) :
  combine X (map g Y) = map (fun p => (fst p, g (snd p))) (combine X Y).
Proof.
  revert Y. induction X as [| x X IH]; intros [| y Y]; cbn [map combine fst snd];
    try reflexivity.
  now rewrite IH.
Qed.

Lemma sample_cov_opp_r (X Y : list R) :
  sample_cov X (map (fun y => - y) Y) = - sample_cov X Y.
Proof.
  unfold sample_cov.
  rewrite (map_opp_scale Y), mean_scale.
  rewrite combine_map_r, map_map. cbn [fst snd].
  rewrite (map_ext _ (fun p => -1 * ((fst p - mean X) * (snd p - mean Y))))
    by (intros p; ring).
  rewrite <- (map_map (fun p => (fst p - mean X) * (snd p - mean Y))
                      (fun z => -1 * z)).
  rewrite sumR_scale. unfold Rdiv. ring.
Qed.

Lemma sample_var_opp (Y : list R) :
  sample_var (map (fun y => - y) Y) = sample_var Y.
Proof. rewrite map_opp_scale, sample_var_scale. ring. Qed.

(** X9: changing the sign of every [Y] changes the sign of the slope and
    of the intercept, and leaves [RSquare] as it is. *)
Theorem reflection_equivariance (X Y : list R) (alpha : R) :
  valid_input X Y alpha ->
  exists res res',
    RMARegression t_isf f_isf X Y alpha = Returned res /\
    RMARegression t_isf f_isf X (map (fun y => - y) Y) alpha = Returned res' /\
    slope res' = - slope res /\
    intercept res' = - intercept res /\
    RSquare res' = RSquare res.
Proof.
  intros Hv. pose proof Hv as (Hlen & Hn & Hx & Hy & Ha).
  assert (Hv' : valid_input X (map (fun y => - y) Y) alpha).
  { unfold valid_input. rewrite len_map, sample_var_opp.
    repeat split; (assumption || lra). }
  assert (Er : pearson X (map (fun y => - y) Y) = - pearson X Y).
  { unfold pearson. rewrite sample_cov_opp_r, sample_var_opp.
    unfold Rdiv. ring. }
  rewrite (RMARegression_valid _ _ _ _ _ Hv), (RMARegression_valid _ _ _ _ _ Hv').
  do 2 eexists. split; [reflexivity |]. split; [reflexivity |].
  unfold estimate. cbn [slope intercept RSquare]. rops.
  rewrite (slope_of_valid _ _ alpha Hv'), (slope_of_valid _ _ alpha Hv).
  rewrite (corr_of_cov_pearson _ _ alpha Hv'), (corr_of_cov_pearson _ _ alpha Hv).
  rewrite Er, np_sign_opp, sample_var_opp, (map_opp_scale Y), mean_scale.
  repeat split; ring.
Qed.

(** *** Data on a line *)

Lemma combine_graph (f : R -> R) (X : list R) :
  combine X (map f X) = map (fun x => (x, f x)) X.
Proof.
  induction X as [| x X IH]; cbn [map combine]; [reflexivity | now rewrite IH].
Qed.

Lemma map_affine (a b : R) (X : list R) :
  map (fun x => a + b * x) X = map (fun y => y + a) (map (fun x => b * x) X).
Proof. rewrite map_map. apply map_ext. intros x. ring. Qed.

Lemma mean_affine (a b : R) (X : list R) :
  (1 <= len X)%Z -> mean (map (fun x => a + b * x) X) = a + b * mean X.
Proof.
  intros Hn. rewrite map_affine, mean_shift, mean_scale by (rewrite ?len_map; lia).
  ring.
Qed.

Lemma sample_var_affine (a b : R) (X : list R) :
  (1 <= len X)%Z ->
  sample_var (map (fun x => a + b * x) X) = b * b * sample_var X.
Proof.
  intros Hn. rewrite map_affine, sample_var_shift by (rewrite len_map; lia).
  apply sample_var_scale.
Qed.

Lemma sample_cov_affine (a b : R) (X : list R) :
  (1 <= len X)%Z ->
  sample_cov X (map (fun x => a + b * x) X) = b * sample_var X.
Proof.
  intros Hn. unfold sample_cov, sample_var.
  rewrite (mean_affine a b X Hn), combine_graph, map_map. cbn [fst snd].
  rewrite (map_ext _ (fun x => b * ((x - mean X) * (x - mean X))))
    by (intros x; ring).
  rewrite <- (map_map (fun x => (x - mean X) * (x - mean X)) (fun z => b * z)).
  rewrite sumR_scale. unfold Rdiv. ring.
Qed.

Lemma sqrt_sq_scale (b v : R) : 0 <= v -> sqrt (b * b * v) = Rabs b * sqrt v.
Proof.
  intros Hv. rewrite sqrt_mult_alt by nra.
  fold (Rsqr b). now rewrite sqrt_Rsqr_abs.
Qed.

(** X10: data lying exactly on a line [y = a + b x] with [b <> 0] (and an
    [X] that is not constant) are fitted exactly: the slope is [b], the
    intercept [a], [RSquare] is 1, and all four intervals collapse to the
    point estimates, whatever the quantile routines return. *)
Theorem exact_line_recovered (a b : R) (X : list R) (alpha : R) :
  (3 <= len X)%Z -> 0 < sample_var X -> 0 < alpha < 1 -> b <> 0 ->
  exists res,
    RMARegression t_isf f_isf X (map (fun x => a + b * x) X) alpha
    = Returned res /\
    slope res = b /\ intercept res = a /\ RSquare res = 1 /\
    slope_ci1 res = (b, b) /\ slope_ci2 res = (b, b) /\
    intercept_ci1 res = (a, a) /\ intercept_ci2 res = (a, a).
Proof.
  intros Hn Hx Ha Hb. set (Y := map (fun x => a + b * x) X).
  assert (Hn1 : (1 <= len X)%Z) by lia.
  assert (EvY : sample_var Y = b * b * sample_var X)
    by (apply sample_var_affine; exact Hn1).
  assert (Ec : sample_cov X Y = b * sample_var X)
    by (apply sample_cov_affine; exact Hn1).
  assert (EmY : mean Y = a + b * mean X) by (apply mean_affine; exact Hn1).
  assert (ElY : len Y = len X) by apply len_map.
  assert (Hv : valid_input X Y alpha).
  { assert (Hbb : 0 < b * b)
      by (destruct (Rtotal_order b 0) as [H | [H | H]]; [nra | lra | nra]).
    unfold valid_input. rewrite ElY, EvY. repeat split; try (lia || lra).
    apply Rmult_lt_0_compat; assumption. }
  destruct (valid_facts X Y alpha Hv) as (HN1 & HN2 & Hsx & _ & Ex & _).
  assert (Habs : 0 < Rabs b) by (apply Rabs_pos_lt; exact Hb).
  assert (EsY : sqrt (sample_var Y) = Rabs b * sqrt (sample_var X))
    by (rewrite EvY; apply sqrt_sq_scale; lra).
  assert (Er : pearson X Y = b / Rabs b).
  { unfold pearson. rewrite Ec, EsY.
    set (sx := sqrt (sample_var X)) in *. rewrite <- Ex. field. split; lra. }
  assert (Esg : np_sign (pearson X Y) * Rabs b = b).
  { rewrite Er. destruct (Rtotal_order b 0) as [H | [H | H]]; [| lra |].
    - rewrite (Rabs_left b H). rewrite np_sign_neg; [lra |].
      replace (b / - b) with (-1) by (field; lra). lra.
    - rewrite (Rabs_right b) by lra. rewrite np_sign_pos; [lra |].
      replace (b / b) with 1 by (field; lra). lra. }
  assert (Err : pearson X Y * pearson X Y = 1).
  { rewrite Er. replace (b / Rabs b * (b / Rabs b))
      with ((b * b) / (Rabs b * Rabs b)) by (field; lra).
    replace (Rabs b * Rabs b) with (b * b)
      by (rewrite <- Rabs_mult; rewrite Rabs_right; [reflexivity | nra]).
    field. lra. }
  assert (Ev : slope_of (cov_of X Y) (len Y) = b).
  { rewrite (slope_of_valid X Y alpha Hv), EsY.
    replace (Rabs b * sqrt (sample_var X) / sqrt (sample_var X)) with (Rabs b)
      by (field; lra).
    exact Esg. }
  assert (Esv : sv_of (cov_of X Y) (len Y) = 0).
  { unfold sv_of, SCX, SCY, SCP, cov_of. cbn [c00 c01 c11]. rops.
    rewrite EvY, Ec. rewrite <- sqrt_0. f_equal. field. repeat split; lra. }
  assert (EB : B_of f_isf (cov_of X Y) (len Y) alpha = 0).
  { unfold B_of. rops. rewrite (corr_of_cov_pearson X Y alpha Hv), Err.
    unfold Rdiv. ring. }
  open_valid Hv. fold Y.
  rewrite Ev, Esv, EB, EmY, (corr_of_cov_pearson X Y alpha Hv), Err.
  rewrite Rplus_0_l, sqrt_1, sqrt_0.
  repeat split; try ring; f_equal; ring.
Qed.

(** *** The two slope intervals have the same width *)

Lemma slope_of_sq (X Y : list R) (alpha : R) :
  valid_input X Y alpha -> sample_cov X Y <> 0 ->
  slope_of (cov_of X Y) (len Y) * slope_of (cov_of X Y) (len Y)
  = sample_var Y / sample_var X.
Proof.
  intros Hv Hc.
  destruct (valid_facts X Y alpha Hv) as (_ & _ & Hsx & Hsy & Ex & Ey).
  assert (Hr : pearson X Y <> 0)
    by (intros E; apply Hc; apply (pearson_zero_iff X Y alpha Hv); exact E).
  pose proof (np_sign_sq _ Hr) as Hs.
  rewrite (slope_of_valid X Y alpha Hv).
  set (sg := np_sign (pearson X Y)) in *.
  set (sx := sqrt (sample_var X)) in *. set (sy := sqrt (sample_var Y)) in *.
  replace (sg * (sy / sx) * (sg * (sy / sx)))
    with ((sg * sg) * ((sy * sy) / (sx * sx))) by (field; lra).
  rewrite Hs, Ex, Ey. ring.
Qed.

(** The quantity under the root in [sv], in terms of the sample
    statistics; it is not negative. *)
Lemma sv_of_sq (X Y : list R) (alpha : R) :
  valid_input X Y alpha ->
  sv_of (cov_of X Y) (len Y) * sv_of (cov_of X Y) (len Y)
  = (sample_var Y - sample_cov X Y * sample_cov X Y / sample_var X)
    / (IZR (len Y - 2) * sample_var X).
Proof.
  intros Hv. destruct (valid_facts X Y alpha Hv) as (HN1 & HN2 & _).
  pose proof Hv as (Hlen & _ & Hx & Hy & _).
  pose proof (sample_cov_sq_le X Y Hlen) as Hcs.
  unfold sv_of, SCX, SCY, SCP, cov_of. cbn [c00 c01 c11]. rops.
  set (vx := sample_var X) in *. set (vy := sample_var Y) in *.
  set (c := sample_cov X Y) in *.
  set (N1 := IZR (len Y - 1)) in *. set (N2 := IZR (len Y - 2)) in *.
  replace ((vy * N1 - c * N1 * (c * N1) / (vx * N1)) / N2 / (vx * N1))
    with ((vy - c * c / vx) / (N2 * vx)) by (field; repeat split; lra).
  apply sqrt_sqrt.
  apply Rmult_le_pos.
  - assert (H : c * c / vx <= vy).
    { apply (Rmult_le_reg_r vx); [exact Hx |].
      unfold Rdiv. rewrite Rmult_assoc, Rinv_l by lra. lra. }
    lra.
  - left. apply Rinv_0_lt_compat. apply Rmult_lt_0_compat; assumption.
Qed.

(** X11: when the F quantile is the square of the t quantile (as it is
    for the F distribution with 1 and [n - 2] degrees of freedom) and the
    covariance is not zero, the two slope intervals have the same width:
    [t * sv = |slope| * sqrt(B)]. *)
Theorem slope_intervals_same_width (X Y : list R) (alpha : R) :
  valid_input X Y alpha ->
  sample_cov X Y <> 0 ->
  0 <= t_isf (alpha / 2) (len Y - 2) ->
  f_isf alpha 1 (len Y - 2)
  = t_isf (alpha / 2) (len Y - 2) * t_isf (alpha / 2) (len Y - 2) ->
  exists res,
    RMARegression t_isf f_isf X Y alpha = Returned res /\
    snd (slope_ci1 res) - fst (slope_ci1 res)
    = Rabs (snd (slope_ci2 res) - fst (slope_ci2 res)).
Proof.
  intros Hv Hc Ht HF.
  destruct (valid_facts X Y alpha Hv) as (HN1 & HN2 & _).
  pose proof Hv as (Hlen & Hn & Hx & Hy & _).
  pose proof (slope_of_sq X Y alpha Hv Hc) as Ev.
  pose proof (sv_of_sq X Y alpha Hv) as Esv.
  pose proof (sv_of_nonneg (cov_of X Y) (len Y)) as Hsv.
  assert (HB : 0 <= B_of f_isf (cov_of X Y) (len Y) alpha).
  { apply B_of_nonneg; [lia | rewrite HF; nra]. }
  assert (EB : B_of f_isf (cov_of X Y) (len Y) alpha
               = t_isf (alpha / 2) (len Y - 2) * t_isf (alpha / 2) (len Y - 2)
                 * (1 - sample_cov X Y * sample_cov X Y
                        / (sample_var X * sample_var Y))
                 / IZR (len Y - 2)).
  { unfold B_of. rops.
    rewrite (corr_of_cov_pearson X Y alpha Hv), (pearson_sq X Y alpha Hv), HF.
    reflexivity. }
  open_valid Hv.
  set (B := B_of _ _ _ _) in *. set (v := slope_of _ _) in *.
  set (sv := sv_of _ _) in *. set (t := t_isf _ _) in *.
  pose proof (sqrt_pos B) as Hcq. pose proof (sqrt_sqrt B HB) as Ecq.
  set (cq := sqrt B) in *.
  assert (Esq : Rsqr (t * sv) = Rsqr (Rabs v * cq)).
  { unfold Rsqr.
    replace (t * sv * (t * sv)) with (t * t * (sv * sv)) by ring.
    replace (Rabs v * cq * (Rabs v * cq))
      with ((Rabs v * Rabs v) * (cq * cq)) by ring.
    rewrite <- Rabs_mult, (Rabs_right (v * v)) by nra.
    rewrite Esv, Ev, Ecq, EB. field. repeat split; lra. }
  assert (Eq : t * sv = Rabs v * cq).
  { apply Rsqr_inj; [nra | | exact Esq].
    apply Rmult_le_pos; [apply Rabs_pos | exact Hcq]. }
  replace (v * (sqrt (B + 1) + cq) - v * (sqrt (B + 1) - cq))
    with (2 * (v * cq)) by ring.
  rewrite !Rabs_mult, (Rabs_right 2), (Rabs_right cq) by lra.
  rewrite <- Eq. ring.
Qed.

End Estimator.

(** ** binary64: too few observations *)

Section FloatEdges.
Open Scope float_scope.

Variable t_isf : float -> Z -> float.
Variable f_isf : float -> Z -> Z -> float.

Definition decodes_to_nan (x : float) : bool :=
  match Prim2SF x with S754_nan => true | _ => false end.

Lemma decodes_to_nan_is_nan (x : float) :
  decodes_to_nan x = true -> is_nan x = true.
Proof.
  unfold decodes_to_nan, is_nan. cbn [same float_scalar].
  rewrite FloatAxioms.eqb_spec.
  destruct (Prim2SF x) as [s | s | | s m e]; try discriminate. reflexivity.
Qed.

Lemma decodes_to_nan_non_finite (x : float) :
  decodes_to_nan x = true -> non_finite x = true.
Proof.
  unfold decodes_to_nan, non_finite.
  destruct (Prim2SF x) as [s | s | | s m e]; try discriminate. reflexivity.
Qed.

Lemma mul_non_finite_l (x y : float) :
  non_finite x = true -> non_finite (x * y) = true.
Proof.
  unfold non_finite. rewrite FloatAxioms.mul_spec.
  destruct (Prim2SF x) as [sx | sx | | sx mx ex]; try discriminate; intros _;
    destruct (Prim2SF y) as [sy | sy | | sy my ey]; reflexivity.
Qed.

Lemma mul_nan (x y : float) :
  decodes_to_nan y = true -> decodes_to_nan (x * y) = true.
Proof.
  unfold decodes_to_nan. rewrite FloatAxioms.mul_spec.
  destruct (Prim2SF y) as [sy | sy | | sy my ey]; try discriminate; intros _;
    destruct (Prim2SF x) as [sx | sx | | sx mx ex]; reflexivity.
Qed.

Lemma sub_nan (x y : float) :
  decodes_to_nan y = true -> decodes_to_nan (x - y) = true.
Proof.
  unfold decodes_to_nan. rewrite FloatAxioms.sub_spec.
  destruct (Prim2SF y) as [sy | sy | | sy my ey]; try discriminate; intros _;
    destruct (Prim2SF x) as [sx | sx | | sx mx ex]; reflexivity.
Qed.

Lemma sqrt_nan (x : float) :
  decodes_to_nan x = true -> decodes_to_nan (PrimFloat.sqrt x) = true.
Proof.
  unfold decodes_to_nan. rewrite FloatAxioms.sqrt_spec.
  destruct (Prim2SF x) as [sx | sx | | sx mx ex]; try discriminate. reflexivity.
Qed.

(** A quotient of two non-finite numbers is a NaN. *)
Lemma div_non_finite_both (x y : float) :
  non_finite x = true -> non_finite y = true -> decodes_to_nan (x / y) = true.
Proof.
  unfold non_finite, decodes_to_nan. rewrite FloatAxioms.div_spec.
  destruct (Prim2SF x) as [sx | sx | | sx mx ex]; try discriminate; intros _;
    destruct (Prim2SF y) as [sy | sy | | sy my ey]; try discriminate;
    reflexivity.
Qed.

Lemma div_non_finite_l (x y : float) :
  non_finite x = true -> non_finite (x / y) = true.
Proof.
  unfold non_finite. rewrite FloatAxioms.div_spec.
  destruct (Prim2SF x) as [sx | sx | | sx mx ex]; try discriminate; intros _;
    destruct (Prim2SF y) as [sy | sy | | sy my ey]; reflexivity.
Qed.

Lemma add_non_finite_l (x y : float) :
  non_finite x = true -> non_finite (x + y) = true.
Proof.
  unfold non_finite. rewrite FloatAxioms.add_spec.
  destruct (Prim2SF x) as [sx | [|] | | sx mx ex]; try discriminate; intros _;
    destruct (Prim2SF y) as [sy | [|] | | sy my ey]; reflexivity.
Qed.

Lemma add_non_finite_r (x y : float) :
  non_finite y = true -> non_finite (x + y) = true.
Proof.
  unfold non_finite. rewrite FloatAxioms.add_spec.
  destruct (Prim2SF y) as [sy | [|] | | sy my ey]; try discriminate; intros _;
    destruct (Prim2SF x) as [sx | [|] | | sx mx ex]; reflexivity.
Qed.

Lemma sub_non_finite_r (x y : float) :
  non_finite y = true -> non_finite (x - y) = true.
Proof.
  unfold non_finite. rewrite FloatAxioms.sub_spec.
  destruct (Prim2SF y) as [sy | [|] | | sy my ey]; try discriminate; intros _;
    destruct (Prim2SF x) as [sx | [|] | | sx mx ex]; reflexivity.
Qed.

Ltac fops :=
  cbn [of_int plus minus times over root lt same float_scalar] in *.

(** With fewer than two observations [np.cov] multiplies its sums by
    [1 / 0.0]. *)
Lemma np_cov_few (X Y : list float) :
  len X = len Y -> (len X <= 1)%Z ->
  exists d0 d1 d2,
    np_cov X Y = Returned (mkCov (d0 * infinity) (d1 * infinity) (d2 * infinity)).
Proof.
  intros Hl Hn. unfold np_cov. rewrite Hl, Z.eqb_refl. cbn [negb].
  destruct (Z.leb_spec (len Y - 1) 0) as [_ | Hgt]; [| lia].
  do 3 eexists. reflexivity.
Qed.

(** X12: on an empty sample or a single observation (equal lengths) the
    call raises nothing and returns a record whose slope and intercept are
    NaN, whatever the values observed and the quantile routines. *)
Theorem too_few_observations_give_nan (X Y : list float) (alpha : float) :
  len X = len Y -> (len X <= 1)%Z ->
  exists res,
    RMARegression t_isf f_isf X Y alpha = Returned res /\
    is_nan (slope res) = true /\ is_nan (intercept res) = true.
Proof.
  intros Hl Hn. destruct (np_cov_few X Y Hl Hn) as (d0 & d1 & d2 & HS).
  rewrite (RMARegression_estimate t_isf f_isf X Y alpha _ HS).
  eexists. split; [reflexivity |].
  unfold estimate. cbn [slope intercept]. unfold slope_of, SCX, SCY.
  cbn [c00 c11]. fops.
  assert (Hv : decodes_to_nan
                 (np_sign (corr_of_cov (mkCov (d0 * infinity) (d1 * infinity)
                                              (d2 * infinity)))
                  * PrimFloat.sqrt (d2 * infinity * float_of_Z (len Y - 1)
                                    / (d0 * infinity * float_of_Z (len Y - 1))))
               = true).
  { apply mul_nan, sqrt_nan, div_non_finite_both;
      apply mul_non_finite_l, mul_non_finite; reflexivity. }
  split; apply decodes_to_nan_is_nan; [exact Hv |].
  apply sub_nan, mul_nan. exact Hv.
Qed.

(** X13: on exactly two observations the division by [n - 2 = 0] leaves
    no usable interval: the call returns a record in which the eight
    interval entries are all infinite or NaN, whatever the values observed
    and the quantile routines. *)
Theorem two_observations_give_no_interval (X Y : list float) (alpha : float) :
  len X = 2%Z -> len Y = 2%Z ->
  exists res,
    RMARegression t_isf f_isf X Y alpha = Returned res /\
    non_finite (fst (slope_ci1 res)) = true /\
    non_finite (snd (slope_ci1 res)) = true /\
    non_finite (fst (intercept_ci1 res)) = true /\
    non_finite (snd (intercept_ci1 res)) = true /\
    non_finite (fst (slope_ci2 res)) = true /\
    non_finite (snd (slope_ci2 res)) = true /\
    non_finite (fst (intercept_ci2 res)) = true /\
    non_finite (snd (intercept_ci2 res)) = true.
Proof.
  intros HX HY.
  destruct (np_cov_aligned X Y) as [S HS]; [congruence |].
  rewrite (RMARegression_estimate t_isf f_isf X Y alpha S HS).
  eexists. split; [reflexivity |].
  unfold estimate.
  cbn [slope_ci1 intercept_ci1 slope_ci2 intercept_ci2 fst snd]. rewrite HY.
  assert (Hsv : non_finite (sv_of S 2) = true).
  { unfold sv_of. fops.
    apply sqrt_non_finite, div_non_finite_l, div_by_zero. reflexivity. }
  assert (HB : non_finite (B_of f_isf S 2 alpha) = true).
  { unfold B_of. fops. apply div_by_zero. reflexivity. }
  set (sv := sv_of S 2) in *. set (B := B_of f_isf S 2 alpha) in *.
  set (v := slope_of S 2). fops.
  assert (Hc : non_finite (PrimFloat.sqrt B) = true)
    by (apply sqrt_non_finite; exact HB).
  repeat split.
  - apply sub_non_finite_r, mul_non_finite. exact Hsv.
  - apply add_non_finite_r, mul_non_finite. exact Hsv.
  - apply sub_non_finite_r, mul_non_finite, add_non_finite_r, mul_non_finite.
    exact Hsv.
  - apply sub_non_finite_r, mul_non_finite, sub_non_finite_r, mul_non_finite.
    exact Hsv.
  - apply mul_non_finite, sub_non_finite_r. exact Hc.
  - apply mul_non_finite, add_non_finite_r. exact Hc.
  - apply sub_non_finite_r, mul_non_finite, mul_non_finite, add_non_finite_r.
    exact Hc.
  - apply sub_non_finite_r, mul_non_finite, mul_non_finite, sub_non_finite_r.
    exact Hc.
Qed.

End FloatEdges.

(** ** The further properties at concrete inputs *)

Section EstimatorInstances.
Open Scope R_scope.

(** A sample with zero covariance. *)
Definition Y_flat : list R := [1; -2; 1].

Lemma stats_flat :
  sample_var Y_flat = 3 /\ sample_cov X_neg Y_flat = 0 /\ mean Y_flat = 0.
Proof.
  repeat split; unfold sample_var, sample_cov, mean, np_sum, len; cbn; lra.
Qed.

Lemma valid_flat : valid_input X_neg Y_flat 0.05.
Proof.
  destruct stats_neg as (_ & _ & Ex & _). destruct stats_flat as (Ey & _).
  unfold valid_input. rewrite Ex, Ey. cbn. repeat split; (lia || lra).
Qed.

Lemma cov_left_nonzero : sample_cov X_left Y_left <> 0.
Proof. destruct stats_left as (_ & _ & _ & _ & Ec). rewrite Ec. lra. Qed.

(** Quantile routines with [F = t * t]. *)
Definition t_two (q : R) (df : Z) : R := 2.
Definition f_four (q : R) (dfn dfd : Z) : R := 4.

Lemma slope_geometric_mean_left :
  valid_input X_left Y_left 0.05 /\ sample_cov X_left Y_left <> 0 /\
  exists res,
    RMARegression t_table f_table X_left Y_left 0.05 = Returned res /\
    slope res * slope res = sample_var Y_left / sample_var X_left /\
    slope res * slope res
    = (sample_cov X_left Y_left / sample_var X_left)
      / (sample_cov X_left Y_left / sample_var Y_left).
Proof.
  assert (Hv : valid_input X_left Y_left 0.05) by (apply valid_left; lra).
  split; [exact Hv |]. split; [exact cov_left_nonzero |].
  exact (slope_geometric_mean t_table f_table _ _ _ Hv cov_left_nonzero).
Defined.

Lemma least_squares_slope_left :
  valid_input X_left Y_left 0.05 /\
  exists res,
    RMARegression t_table f_table X_left Y_left 0.05 = Returned res /\
    sample_cov X_left Y_left / sample_var X_left
    = slope res * Rabs (pearson X_left Y_left) /\
    Rabs (sample_cov X_left Y_left / sample_var X_left) <= Rabs (slope res).
Proof.
  assert (Hv : valid_input X_left Y_left 0.05) by (apply valid_left; lra).
  split; [exact Hv | exact (least_squares_slope t_table f_table _ _ _ Hv)].
Defined.

Lemma uncorrelated_gives_flat_line_flat :
  valid_input X_neg Y_flat 0.05 /\ sample_cov X_neg Y_flat = 0 /\
  exists res,
    RMARegression t_table f_table X_neg Y_flat 0.05 = Returned res /\
    slope res = 0 /\ intercept res = mean Y_flat /\ RSquare res = 0 /\
    slope_ci2 res = (0, 0).
Proof.
  assert (Hc : sample_cov X_neg Y_flat = 0) by apply stats_flat.
  split; [exact valid_flat |]. split; [exact Hc |].
  exact (uncorrelated_gives_flat_line t_table f_table _ _ _ valid_flat Hc).
Defined.

Lemma ricker_slope_interval_left :
  valid_input X_left Y_left 0.05 /\
  0 <= t_table (0.05 / 2) (len Y_left - 2) /\
  exists res,
    RMARegression t_table f_table X_left Y_left 0.05 = Returned res /\
    fst (slope_ci1 res) <= slope res <= snd (slope_ci1 res) /\
    (fst (slope_ci1 res) + snd (slope_ci1 res)) / 2 = slope res.
Proof.
  assert (Hv : valid_input X_left Y_left 0.05) by (apply valid_left; lra).
  assert (Ht : 0 <= t_table (0.05 / 2) (len Y_left - 2)) by (cbn; lra).
  split; [exact Hv |]. split; [exact Ht |].
  exact (ricker_slope_interval t_table f_table _ _ _ Hv Ht).
Defined.

Lemma second_slope_interval_by_sign_neg :
  valid_input X_neg Y_neg 0.05 /\
  0 <= f_table 0.05 1 (len Y_neg - 2) /\
  exists res,
    RMARegression t_table f_table X_neg Y_neg 0.05 = Returned res /\
    (0 <= slope res ->
     fst (slope_ci2 res) <= slope res <= snd (slope_ci2 res)) /\
    (slope res <= 0 ->
     snd (slope_ci2 res) <= slope res <= fst (slope_ci2 res)).
Proof.
  assert (Hv : valid_input X_neg Y_neg 0.05) by (apply valid_neg; lra).
  assert (HF : 0 <= f_table 0.05 1 (len Y_neg - 2)) by (cbn; lra).
  split; [exact Hv |]. split; [exact HF |].
  exact (second_slope_interval_by_sign t_table f_table _ _ _ Hv HF).
Defined.

Lemma ricker_intercept_interval_by_mean_left :
  valid_input X_left Y_left 0.05 /\
  0 <= t_table (0.05 / 2) (len Y_left - 2) /\
  exists res,
    RMARegression t_table f_table X_left Y_left 0.05 = Returned res /\
    (0 <= mean X_left ->
     fst (intercept_ci1 res) <= intercept res <= snd (intercept_ci1 res)) /\
    (mean X_left <= 0 ->
     snd (intercept_ci1 res) <= intercept res <= fst (intercept_ci1 res)).
Proof.
  assert (Hv : valid_input X_left Y_left 0.05) by (apply valid_left; lra).
  assert (Ht : 0 <= t_table (0.05 / 2) (len Y_left - 2)) by (cbn; lra).
  split; [exact Hv |]. split; [exact Ht |].
  exact (ricker_intercept_interval_by_mean t_table f_table _ _ _ Hv Ht).
Defined.

Lemma exchange_gives_reciprocal_slope_left :
  valid_input X_left Y_left 0.05 /\ sample_cov X_left Y_left <> 0 /\
  exists res res',
    RMARegression t_table f_table X_left Y_left 0.05 = Returned res /\
    RMARegression t_table f_table Y_left X_left 0.05 = Returned res' /\
    slope res' * slope res = 1 /\
    RSquare res' = RSquare res.
Proof.
  assert (Hv : valid_input X_left Y_left 0.05) by (apply valid_left; lra).
  split; [exact Hv |]. split; [exact cov_left_nonzero |].
  exact (exchange_gives_reciprocal_slope t_table f_table _ _ _ Hv cov_left_nonzero).
Defined.

Lemma translation_equivariance_left :
  valid_input X_left Y_left 0.05 /\
  exists res res',
    RMARegression t_table f_table X_left Y_left 0.05 = Returned res /\
    RMARegression t_table f_table
      (map (fun x => x + 10) X_left) (map (fun y => y + 7) Y_left) 0.05
    = Returned res' /\
    slope res' = slope res /\
    intercept res' = intercept res + 7 - 10 * slope res /\
    RSquare res' = RSquare res /\
    slope_ci1 res' = slope_ci1 res /\
    slope_ci2 res' = slope_ci2 res.
Proof.
  assert (Hv : valid_input X_left Y_left 0.05) by (apply valid_left; lra).
  split; [exact Hv |].
  exact (translation_equivariance t_table f_table 10 7 _ _ _ Hv).
Defined.

Lemma reflection_equivariance_left :
  valid_input X_left Y_left 0.05 /\
  exists res res',
    RMARegression t_table f_table X_left Y_left 0.05 = Returned res /\
    RMARegression t_table f_table X_left (map (fun y => - y) Y_left) 0.05
    = Returned res' /\
    slope res' = - slope res /\
    intercept res' = - intercept res /\
    RSquare res' = RSquare res.
Proof.
  assert (Hv : valid_input X_left Y_left 0.05) by (apply valid_left; lra).
  split; [exact Hv |].
  exact (reflection_equivariance t_table f_table _ _ _ Hv).
Defined.

Lemma exact_line_recovered_neg :
  (3 <= len X_neg)%Z /\ 0 < sample_var X_neg /\ 0 < 0.05 < 1 /\ -2 <> 0 /\
  exists res,
    RMARegression t_table f_table X_neg (map (fun x => 5 + -2 * x) X_neg) 0.05
    = Returned res /\
    slope res = -2 /\ intercept res = 5 /\ RSquare res = 1 /\
    slope_ci1 res = (-2, -2) /\ slope_ci2 res = (-2, -2) /\
    intercept_ci1 res = (5, 5) /\ intercept_ci2 res = (5, 5).
Proof.
  assert (Hn : (3 <= len X_neg)%Z) by (cbn; lia).
  assert (Hx : 0 < sample_var X_neg)
    by (destruct stats_neg as (_ & _ & Ex & _); rewrite Ex; lra).
  assert (Ha : 0 < 0.05 < 1) by lra.
  assert (Hb : -2 <> 0) by lra.
  split; [exact Hn |]. split; [exact Hx |]. split; [exact Ha |].
  split; [exact Hb |].
  exact (exact_line_recovered t_table f_table 5 (-2) X_neg 0.05 Hn Hx Ha Hb).
Defined.

Lemma slope_intervals_same_width_left :
  valid_input X_left Y_left 0.05 /\ sample_cov X_left Y_left <> 0 /\
  0 <= t_two (0.05 / 2) (len Y_left - 2) /\
  f_four 0.05 1 (len Y_left - 2)
  = t_two (0.05 / 2) (len Y_left - 2) * t_two (0.05 / 2) (len Y_left - 2) /\
  exists res,
    RMARegression t_two f_four X_left Y_left 0.05 = Returned res /\
    snd (slope_ci1 res) - fst (slope_ci1 res)
    = Rabs (snd (slope_ci2 res) - fst (slope_ci2 res)).
Proof.
  assert (Hv : valid_input X_left Y_left 0.05) by (apply valid_left; lra).
  assert (Ht : 0 <= t_two (0.05 / 2) (len Y_left - 2)) by (unfold t_two; lra).
  assert (HF : f_four 0.05 1 (len Y_left - 2)
               = t_two (0.05 / 2) (len Y_left - 2)
                 * t_two (0.05 / 2) (len Y_left - 2))
    by (unfold f_four, t_two; lra).
  split; [exact Hv |]. split; [exact cov_left_nonzero |].
  split; [exact Ht |]. split; [exact HF |].
  exact (slope_intervals_same_width t_two f_four _ _ _ Hv cov_left_nonzero Ht HF).
Defined.

End EstimatorInstances.

Section FloatEdgeInstances.
Open Scope float_scope.

Lemma too_few_observations_give_nan_single :
  len [5] = len [7] /\ (len [5] <= 1)%Z /\
  exists res,
    RMARegression t_table64 f_table64 [5] [7] alpha_default = Returned res /\
    is_nan (slope res) = true /\ is_nan (intercept res) = true.
Proof.
  assert (Hl : len [5] = len [7]) by reflexivity.
  assert (Hn : (len [5] <= 1)%Z) by (cbn; lia).
  split; [exact Hl |]. split; [exact Hn |].
  exact (too_few_observations_give_nan t_table64 f_table64 _ _ alpha_default Hl Hn).
Defined.

Lemma two_observations_give_no_interval_two :
  len X_two = 2%Z /\ len Y_two = 2%Z /\
  exists res,
    RMARegression t_table64 f_table64 X_two Y_two alpha_default = Returned res /\
    non_finite (fst (slope_ci1 res)) = true /\
    non_finite (snd (slope_ci1 res)) = true /\
    non_finite (fst (intercept_ci1 res)) = true /\
    non_finite (snd (intercept_ci1 res)) = true /\
    non_finite (fst (slope_ci2 res)) = true /\
    non_finite (snd (slope_ci2 res)) = true /\
    non_finite (fst (intercept_ci2 res)) = true /\
    non_finite (snd (intercept_ci2 res)) = true.
Proof.
  assert (HX : len X_two = 2%Z) by reflexivity.
  assert (HY : len Y_two = 2%Z) by reflexivity.
  split; [exact HX |]. split; [exact HY |].
  exact (two_observations_give_no_interval
           t_table64 f_table64 _ _ alpha_default HX HY).
Defined.

End FloatEdgeInstances.

(** ** The statistics of the specification, written independently

    Mean, sample variance, sample covariance and Pearson's correlation of
    lists of reals, from the Standard Library's operations alone (none of
    the routines of the embedding), to state what the estimator computes in
    exact arithmetic. *)

Section Statistics.
Open Scope R_scope.

Definition total (l : list R) : R := fold_right Rplus 0 l.

Definition average (l : list R) : R := total l / INR (List.length l).

Definition variance (l : list R) : R :=
  total (map (fun x => (x - average l) * (x - average l)) l)
  / (INR (List.length l) - 1).

Definition covariance (X Y : list R) : R :=
  total (map (fun p => (fst p - average X) * (snd p - average Y)) (combine X Y))
  / (INR (List.length X) - 1).

Definition correlation (X Y : list R) : R :=
  covariance X Y / (sqrt (variance X) * sqrt (variance Y)).

(** A valid input: equal lengths, at least three observations, both
    variances positive, [alpha] strictly between 0 and 1. *)
Definition valid_sample (X Y : list R) (alpha : R) : Prop :=
  List.length X = List.length Y /\ (3 <= List.length X)%nat /\
  0 < variance X /\ 0 < variance Y /\ 0 < alpha < 1.

Lemma np_sum_total (l : list R) : np_sum l = total l.
Proof.
  induction l as [| x l IH]; [reflexivity |].
  rewrite sumR_cons, IH. reflexivity.
Qed.

Lemma len_INR (l : list R) : IZR (len l) = INR (List.length l).
Proof. unfold len. now rewrite INR_IZR_INZ. Qed.

Lemma len_pred_INR (l : list R) : IZR (len l - 1) = INR (List.length l) - 1.
Proof. now rewrite minus_IZR, len_INR. Qed.

Lemma mean_average (l : list R) : mean l = average l.
Proof.
  unfold mean, average. cbn [over of_int real_scalar].
  now rewrite np_sum_total, len_INR.
Qed.

Lemma sample_var_variance (l : list R) : sample_var l = variance l.
Proof.
  unfold sample_var, variance.
  now rewrite np_sum_total, len_pred_INR, mean_average.
Qed.

Lemma sample_cov_covariance (X Y : list R) : sample_cov X Y = covariance X Y.
Proof.
  unfold sample_cov, covariance.
  now rewrite np_sum_total, len_pred_INR, !mean_average.
Qed.

Lemma pearson_correlation (X Y : list R) : pearson X Y = correlation X Y.
Proof.
  unfold pearson, correlation.
  now rewrite sample_cov_covariance, !sample_var_variance.
Qed.

Lemma valid_sample_input (X Y : list R) (alpha : R) :
  valid_sample X Y alpha -> valid_input X Y alpha.
Proof.
  intros (Hl & Hn & Hx & Hy & Ha). unfold valid_input, len.
  rewrite !sample_var_variance, Hl. repeat split; (assumption || lia || lra).
Qed.

End Statistics.

(** ** The point estimates and [RSquare] in exact arithmetic *)

Section ExactArithmetic.
Open Scope R_scope.

Variable t_isf : R -> Z -> R.
Variable f_isf : R -> Z -> Z -> R.

(** C3, in exact arithmetic: on every valid input the call returns a
    record whose slope is [sqrt(SCY / SCX)] with the sign of Pearson's
    correlation [r] (plus for [r > 0], minus for [r < 0], and 0 for
    [r = 0]), and whose intercept is [mean(Y) - mean(X) * slope], where
    [SCX = (n-1) Var(X)] and [SCY = (n-1) Var(Y)]. *)
Theorem point_estimates_exact (X Y : list R) (alpha : R) :
  valid_sample X Y alpha ->
  exists res,
    RMARegression t_isf f_isf X Y alpha = Returned res /\
    (0 < correlation X Y ->
     slope res = sqrt (((INR (List.length X) - 1) * variance Y)
                       / ((INR (List.length X) - 1) * variance X))) /\
    (correlation X Y < 0 ->
     slope res = - sqrt (((INR (List.length X) - 1) * variance Y)
                         / ((INR (List.length X) - 1) * variance X))) /\
    (correlation X Y = 0 -> slope res = 0) /\
    intercept res = average Y - average X * slope res.
Proof.
  intros Hs. pose proof (valid_sample_input X Y alpha Hs) as Hv.
  pose proof Hv as (Hlen & _).
  open_valid Hv. unfold slope_of. rops.
  rewrite corr_of_cov_sign, SC_ratio, <- Hlen, len_pred_INR.
  rewrite pearson_correlation, !sample_var_variance, !mean_average.
  repeat split.
  - intros Hr. rewrite (np_sign_pos _ Hr). ring.
  - intros Hr. rewrite (np_sign_neg _ Hr). ring.
  - intros Hr. rewrite Hr, np_sign_zero. ring.
Qed.


End ExactArithmetic.

(** ** binary64 against exact arithmetic *)

(** The sample [zs * p], at either carrier. *)
Definition scaled {T : Type} `{Scalar T} (p : T) (zs : list Z) : list T :=
  map (fun z => (#z * p)%num) zs.

Section Binary64Limits.

(** [2^600 * [1, 2, 3]] and [2^600 * [1, 3, 2]] as binary64 numbers (all six
    are exact) and as reals; [[1, 2, 3]] likewise. *)
Definition X_big64 : list float := scaled 0x1p+600%float [1; 2; 3]%Z.
Definition Y_small64 : list float := scaled 1%float [1; 2; 3]%Z.
Definition X_bigR : list R := scaled (2 ^ 600)%R [1; 2; 3]%Z.
Definition Y_bigR : list R := scaled (2 ^ 600)%R [1; 3; 2]%Z.
Definition Y_smallR : list R := scaled 1%R [1; 2; 3]%Z.

(** The decimal samples [0.1, 0.2, 0.3] and the like: [z / 10] is the
    binary64 number nearest to the decimal. *)
Definition tenths (zs : list Z) : list float :=
  map (fun z => (float_of_Z z / 10)%float) zs.

Lemma stats_bigR :
  (variance X_bigR = 2 ^ 600 * 2 ^ 600 /\ variance Y_bigR = 2 ^ 600 * 2 ^ 600 /\
   variance Y_smallR = 1 /\ covariance X_bigR Y_smallR = 2 ^ 600)%R.
Proof.
  unfold variance, covariance, average, total, X_bigR, Y_bigR, Y_smallR, scaled.
  cbn [map combine fold_right List.length INR fst snd of_int times real_scalar].
  set (p := (2 ^ 600)%R). repeat split; field.
Qed.

Lemma pow_600_pos : (0 < 2 ^ 600)%R.
Proof. apply pow_lt. lra. Qed.

Lemma valid_bigR :
  valid_sample X_bigR Y_smallR 0.05 /\ valid_sample X_bigR Y_bigR 0.05.
Proof.
  destruct stats_bigR as (Ex & Ey & Es & _). pose proof pow_600_pos as Hp.
  unfold valid_sample. rewrite Ex, Ey, Es.
  assert (Hpp : (0 < 2 ^ 600 * 2 ^ 600)%R) by (apply Rmult_lt_0_compat; exact Hp).
  repeat split; try reflexivity; try (cbn; lia); try lra.
Qed.

Lemma correlation_bigR : correlation X_bigR Y_smallR = 1%R.
Proof.
  destruct stats_bigR as (Ex & _ & Es & Ec). pose proof pow_600_pos as Hp.
  unfold correlation. rewrite Ex, Es, Ec, sqrt_1, sqrt_square by lra.
  field; lra.
Qed.

(** C3 does not hold of the binary64 code: on [X = 2^600 * [1, 2, 3]],
    [Y = [1, 2, 3]] the squares in [np.cov] overflow and the call returns
    slope 0, whatever the quantile routines; the sample is valid, its
    correlation is 1, and [sqrt(SCY / SCX)] is positive. *)
Lemma slope_lost_to_overflow :
  (forall (t_isf : float -> Z -> float) (f_isf : float -> Z -> Z -> float),
   exists res,
     RMARegression t_isf f_isf X_big64 Y_small64 alpha_default = Returned res /\
     slope res = 0%float /\ intercept res = 2%float) /\
  valid_sample X_bigR Y_smallR 0.05 /\
  (0 < correlation X_bigR Y_smallR)%R /\
  (0 < sqrt (((INR (List.length X_bigR) - 1) * variance Y_smallR)
             / ((INR (List.length X_bigR) - 1) * variance X_bigR)))%R.
Proof.
  split; [| split; [| split]].
  - intros t_isf f_isf. eexists. split; [reflexivity |]. split; reflexivity.
  - apply valid_bigR.
  - rewrite correlation_bigR. lra.
  - destruct stats_bigR as (Ex & _ & Es & _). pose proof pow_600_pos as Hp.
    rewrite Ex, Es. apply sqrt_lt_R0. cbn [List.length X_bigR scaled map INR].
    apply Rdiv_lt_0_compat; [lra |].
    apply Rmult_lt_0_compat; [lra | apply Rmult_lt_0_compat; exact Hp].
Qed.


(** C10 does not hold of the binary64 code: the pairs (0.1, 0.3),
    (0.2, 0.1), (0.3, 0.2) and the same pairs in the reverse order (three
    observations, both computed variances positive) give two means of [X]
    and two intercepts that differ. *)
Lemma reordering_changes_intercept :
  Permutation (combine (tenths [1; 2; 3]%Z) (tenths [3; 1; 2]%Z))
              (combine (tenths [3; 2; 1]%Z) (tenths [2; 1; 3]%Z)) /\
  (exists S, np_cov (tenths [1; 2; 3]%Z) (tenths [3; 1; 2]%Z) = Returned S /\
             (0 <? c00 S)%float = true /\ (0 <? c11 S)%float = true) /\
  (mean (tenths [1; 2; 3]%Z) =? mean (tenths [3; 2; 1]%Z))%float = false /\
  forall (t_isf : float -> Z -> float) (f_isf : float -> Z -> Z -> float),
  exists res res',
    RMARegression t_isf f_isf (tenths [1; 2; 3]%Z) (tenths [3; 1; 2]%Z)
                  alpha_default = Returned res /\
    RMARegression t_isf f_isf (tenths [3; 2; 1]%Z) (tenths [2; 1; 3]%Z)
                  alpha_default = Returned res' /\
    (intercept res =? intercept res')%float = false.
Proof.
  split; [| split; [| split]].
  - change (combine (tenths [3; 2; 1]%Z) (tenths [2; 1; 3]%Z))
      with (rev (combine (tenths [1; 2; 3]%Z) (tenths [3; 1; 2]%Z))).
    apply Permutation_rev.
  - eexists. split; [reflexivity |]. split; reflexivity.
  - reflexivity.
  - intros t_isf f_isf. do 2 eexists.
    split; [reflexivity |]. split; reflexivity.
Qed.

End Binary64Limits.

Section ExactInstances.
Open Scope R_scope.

Lemma valid_sample_left : valid_sample X_left Y_left 0.05.
Proof.
  destruct stats_left as (_ & _ & Ex & Ey & _).
  unfold valid_sample. rewrite <- !sample_var_variance, Ex, Ey.
  repeat split; try reflexivity; try (cbn; lia); lra.
Qed.

Lemma point_estimates_exact_left :
  valid_sample X_left Y_left 0.05 /\
  exists res,
    RMARegression t_table f_table X_left Y_left 0.05 = Returned res /\
    (0 < correlation X_left Y_left ->
     slope res = sqrt (((INR (List.length X_left) - 1) * variance Y_left)
                       / ((INR (List.length X_left) - 1) * variance X_left))) /\
    (correlation X_left Y_left < 0 ->
     slope res = - sqrt (((INR (List.length X_left) - 1) * variance Y_left)
                         / ((INR (List.length X_left) - 1) * variance X_left))) /\
    (correlation X_left Y_left = 0 -> slope res = 0) /\
    intercept res = average Y_left - average X_left * slope res.
Proof.
  split; [exact valid_sample_left |].
  exact (point_estimates_exact t_table f_table _ _ _ valid_sample_left).
Defined.


End ExactInstances.
